(** * A two-pass assembler for Mano's basic computer

    Shallow embedding of [assembler.py] (class [Assembler]) and the
    properties of its two-pass engine.

    Conventions of the embedding:
    - a source line is a [list string] of tokens, the program a list of
      lines (the attribute [__asm]); tokens are ASCII text without white
      space, as [str.split] produces them;
    - the three instruction tables, the address-symbol table, the label
      table and the output are Python dicts with string keys and string
      values: [gmap string string];
    - the location counter is a Python [int]: [Z]; integers stay within
      CPython's limit for the conversion between [int] and decimal text
      (4300 digits): above it [str] and [int] raise a [ValueError], which
      is not modelled;
    - a Python exception is a value of [exception]; a loop body either
      raises or finishes with its effect on the tables, and no loop body
      writes a table before its last possible raise, so a raise leaves the
      tables as they were before the line;
    - the object is a record of its attributes; [assemble] maps the object
      before the call to the object after it and the value returned or
      the exception raised;
    - reading files ([read_code], [__load_table]) and [print] calls are
      not modelled. *)

From Stdlib Require Import ZArith Ascii DecimalString DecimalZ DecimalPos.
From stdpp Require Import gmap strings list fin_maps.

#[local] Set Warnings "-clear-no-such-hyp".
Open Scope Z_scope.

(** ** Python values and built-ins *)

Inductive exception : Type :=
  | IndexError                      (* list index out of range *)
  | KeyError (key : string)         (* dict lookup of an absent key *)
  | ValueError (literal : string)   (* int() on an invalid literal *)
  | AssertionError
  | Exception_ (msg : string).

Inductive result (A : Type) : Type :=
  | Ok (a : A)
  | Raise (e : exception).
Arguments Ok {A} a.
Arguments Raise {A} e.

#[export] Instance result_ret : MRet result := λ A a, Ok a.

#[export] Instance result_bind : MBind result := λ A B k r,
  match r with
  | Ok a => k a
  | Raise e => Raise e
  end.

(** [line[i]] *)
Definition item (line : list string) (i : nat) : result string :=
  match line !! i with
  | Some tok => Ok tok
  | None => Raise IndexError
  end.

(** [d[key]] *)
Definition getitem (d : gmap string string) (key : string) : result string :=
  match d !! key with
  | Some v => Ok v
  | None => Raise (KeyError key)
  end.

Module Py.

(** [str.lower()] on ASCII text. *)
Definition lower_ascii (c : ascii) : ascii :=
  let n := nat_of_ascii c in
  if ((65 <=? n)%nat && (n <=? 90)%nat)%bool then ascii_of_nat (n + 32) else c.

Fixpoint lower (s : string) : string :=
  match s with
  | EmptyString => EmptyString
  | String c s' => String (lower_ascii c) (lower s')
  end.

Fixpoint last_char (s : string) : option ascii :=
  match s with
  | EmptyString => None
  | String c EmptyString => Some c
  | String _ s' => last_char s'
  end.

(** [s.endswith(c)] and [s.startswith(c)] for a one-character [c]. *)
Definition endswith (s : string) (c : ascii) : bool :=
  match last_char s with
  | Some d => Ascii.eqb d c
  | None => false
  end.

Definition startswith (s : string) (c : ascii) : bool :=
  match s with
  | String d _ => Ascii.eqb d c
  | EmptyString => false
  end.

(** [s[:-1]] *)
Fixpoint drop_last (s : string) : string :=
  match s with
  | EmptyString => EmptyString
  | String _ EmptyString => EmptyString
  | String c s' => String c (drop_last s')
  end.

(** [c in s] for a one-character [c]. *)
Fixpoint has_char (c : ascii) (s : string) : bool :=
  match s with
  | EmptyString => false
  | String d s' => Ascii.eqb d c || has_char c s'
  end.

(** [str(n)] for an int: its decimal text.  CPython raises instead when
    the text would have more than 4300 digits; see the conventions. *)
Definition str (n : Z) : string := NilZero.string_of_int (Z.to_int n).

(** White space for [int()] and [str.strip()] on ASCII text: the
    characters 9 to 13, 28 to 31 and the space. *)
Definition isspace (c : ascii) : bool :=
  let n := nat_of_ascii c in
  ((9 <=? n)%nat && (n <=? 13)%nat) || ((28 <=? n)%nat && (n <=? 32)%nat).

Fixpoint lstrip (s : string) : string :=
  match s with
  | EmptyString => EmptyString
  | String c s' => if isspace c then lstrip s' else s
  end.

Fixpoint rstrip (s : string) : string :=
  match s with
  | EmptyString => EmptyString
  | String c s' =>
      match rstrip s' with
      | EmptyString => if isspace c then EmptyString else String c EmptyString
      | r => String c r
      end
  end.

(** [s.strip()] *)
Definition strip (s : string) : string := lstrip (rstrip s).

Definition isdigit (c : ascii) : bool :=
  let n := nat_of_ascii c in (48 <=? n)%nat && (n <=? 57)%nat.

(** Digits of [int(s)]: decimal digits, single underscores allowed between
    two digits; the result is the digits without the underscores. *)
Fixpoint dec_digits (s : string) (after_digit : bool) : option string :=
  match s with
  | EmptyString => if after_digit then Some EmptyString else None
  | String c s' =>
      if Ascii.eqb c "_" then
        if after_digit then dec_digits s' false else None
      else if isdigit c then String c <$> dec_digits s' true
      else None
  end.

(** The text of [int(s)] once the white space around it is removed: an
    optional sign, then the digits.  The result keeps a minus sign and
    drops a plus sign and the underscores. *)
Definition dec_text (t : string) : option string :=
  match t with
  | EmptyString => None
  | String c t' =>
      if Ascii.eqb c "-" then String "-" <$> dec_digits t' false
      else if Ascii.eqb c "+" then dec_digits t' false
      else dec_digits t false
  end.

(** [int(s)]: white space around the number is ignored, then come an
    optional sign and decimal digits with optional single underscores
    between them.  CPython raises instead when there are more than 4300
    digits; see the conventions. *)
Definition int10 (s : string) : result Z :=
  match dec_text (strip s) ≫= NilZero.int_of_string with
  | Some d => Ok (Z.of_int d)
  | None => Raise (ValueError s)
  end.

Definition hex_digit (c : ascii) : option Z :=
  let n := Z.of_nat (nat_of_ascii c) in
  if (48 <=? n) && (n <=? 57) then Some (n - 48)
  else if (97 <=? n) && (n <=? 102) then Some (n - 87)
  else if (65 <=? n) && (n <=? 70) then Some (n - 55)
  else None.

(** Digits of [int(s, 16)]: hexadecimal digits, single underscores
    allowed between two digits. *)
Fixpoint hex_digits (s : string) (acc : Z) (after_digit : bool) : option Z :=
  match s with
  | EmptyString => if after_digit then Some acc else None
  | String c s' =>
      if Ascii.eqb c "_" then
        if after_digit then hex_digits s' acc false else None
      else
        match hex_digit c with
        | Some d => hex_digits s' (16 * acc + d) true
        | None => None
        end
  end.

(** After the sign: an optional [0x] / [0X] prefix, which may be followed
    by one underscore. *)
Definition hex_magnitude (s : string) : option Z :=
  match s with
  | String "0" (String x s') =>
      if Ascii.eqb x "x" || Ascii.eqb x "X" then
        match s' with
        | String "_" s'' => hex_digits s'' 0 false
        | _ => hex_digits s' 0 false
        end
      else hex_digits s 0 false
  | _ => hex_digits s 0 false
  end.

(** The text of [int(s, 16)] once the white space around it is removed:
    an optional sign, then the magnitude. *)
Definition hex_signed (t : string) : option Z :=
  match t with
  | String "-" t' => Z.opp <$> hex_magnitude t'
  | String "+" t' => hex_magnitude t'
  | _ => hex_magnitude t
  end.

(** [int(s, 16)]: white space around the number is ignored. *)
Definition int16 (s : string) : result Z :=
  match hex_signed (strip s) with
  | Some n => Ok n
  | None => Raise (ValueError s)
  end.

(** ['{:b}'.format(n)] *)
Fixpoint bits (p : positive) : string :=
  match p with
  | xH => "1"
  | xO p' => bits p' +:+ "0"
  | xI p' => bits p' +:+ "1"
  end.

Definition format_b (n : Z) : string :=
  match n with
  | Z0 => "0"
  | Zpos p => bits p
  | Zneg p => String "-" (bits p)
  end.

Fixpoint zeros (n : nat) : string :=
  match n with
  | O => EmptyString
  | S n' => String "0" (zeros n')
  end.

(** [s.zfill(width)]: the padding goes after a leading sign. *)
Definition zfill (width : nat) (s : string) : string :=
  let pad := zeros (width - String.length s) in
  match s with
  | String c s' =>
      if Ascii.eqb c "-" || Ascii.eqb c "+" then String c (pad +:+ s')
      else pad +:+ s
  | EmptyString => pad
  end.

End Py.

(** ** The assembler's helpers *)

(** [__islabel] *)
Definition islabel (s : string) : bool := Py.endswith s ",".

(** [__rm_comments]: each line is cut at its first token that starts with
    a slash. *)
Fixpoint rm_comments_line (line : list string) : list string :=
  match line with
  | [] => []
  | tok :: rest =>
      if Py.startswith tok "/" then [] else tok :: rm_comments_line rest
  end.

Definition rm_comments (asm : list (list string)) : list (list string) :=
  map rm_comments_line asm.

(** [__format2bin] *)
Definition format2bin (num numformat : string) (format_bits : nat) : result string :=
  if String.eqb numformat "dec" then
    n ← Py.int10 num; Ok (Py.zfill format_bits (Py.format_b n))
  else if String.eqb numformat "hex" then
    n ← Py.int16 num; Ok (Py.zfill format_bits (Py.format_b n))
  else Raise (Exception_ "format2bin: not supported format provided.").

(** [__is_pseudo_instruction] *)
Definition is_pseudo_instruction (opcode : string) : bool :=
  bool_decide (Py.lower opcode ∈ ["org"; "end"; "dec"]).

(** The key under which a location is stored:
    [self.__format2bin(str(current_location), 'dec', 12)]. *)
Definition location_key (current_location : Z) : result string :=
  format2bin (Py.str current_location) "dec" 12.

(** ** Pass One *)

(** How a loop body leaves: to the next line with the location counter
    (falling off the body or [continue]), or by [break]. *)
Inductive flow : Type :=
  | Next (current_location : Z)
  | Break.

(** How a loop leaves: the lines are exhausted (with the final counter),
    a [break] was executed, or a line raised. *)
Inductive exit : Type :=
  | Exhausted (current_location : Z)
  | Stopped
  | Failed (e : exception).

Abbreviation dict := (gmap string string).

(** Body of the loop of [__first_pass] on one line: the new control state
    and the two tables [__address_symbol_table] and [__label_addresses]. *)
Definition first_pass_line (line : list string) (current_location : Z)
    (address_symbol_table label_addresses : dict) : result (flow * dict * dict) :=
  match line with
  | [] => Ok (Next current_location, address_symbol_table, label_addresses)
  | opcode :: _ =>
      if islabel opcode then
        let label := Py.drop_last opcode in
        tok1 ← item line 1;
        if negb (String.eqb tok1 "hex") then
          key ← location_key current_location;
          Ok (Next (current_location + 1),
              <[key := tok1]> address_symbol_table,
              <[label := Py.str current_location]> label_addresses)
        else
          tok2 ← item line 2;
          word ← format2bin tok2 "hex" 16;
          key ← location_key current_location;
          Ok (Next (current_location + 1),
              <[key := word]> address_symbol_table,
              <[label := Py.str current_location]> label_addresses)
      else if String.eqb opcode "org" then
        tok1 ← item line 1;
        target ← Py.int16 tok1;
        Ok (Next target, address_symbol_table, label_addresses)
      else if String.eqb opcode "end" then
        Ok (Break, address_symbol_table, label_addresses)
      else
        key ← location_key current_location;
        Ok (Next (current_location + 1),
            <[key := opcode]> address_symbol_table,
            label_addresses)
  end.

Fixpoint first_pass_loop (lines : list (list string)) (current_location : Z)
    (address_symbol_table label_addresses : dict) : exit * dict * dict :=
  match lines with
  | [] => (Exhausted current_location, address_symbol_table, label_addresses)
  | line :: rest =>
      match first_pass_line line current_location address_symbol_table label_addresses with
      | Raise e => (Failed e, address_symbol_table, label_addresses)
      | Ok (Break, ast, la) => (Stopped, ast, la)
      | Ok (Next loc, ast, la) => first_pass_loop rest loc ast la
      end
  end.

(** [__first_pass]: the counter starts at 0. *)
Definition first_pass (asm : list (list string))
    (address_symbol_table label_addresses : dict) : exit * dict * dict :=
  first_pass_loop asm 0 address_symbol_table label_addresses.

(** ** Pass Two *)

Section second_pass.
Variables mri_table rri_table ioi_table : dict.

(** Body of the first loop of [__second_pass] for one key of the
    address-symbol table.  Both tests read the value fetched before any
    replacement. *)
Definition sweep_key (address_symbol_table : dict) (key : string) : dict :=
  match address_symbol_table !! key with
  | None => address_symbol_table
  | Some value =>
      let t1 :=
        match rri_table !! value with
        | Some word => <[key := word]> address_symbol_table
        | None => address_symbol_table
        end in
      match ioi_table !! value with
      | Some word => <[key := word]> t1
      | None => t1
      end
  end.

(** The loop runs over [list(self.__address_symbol_table.keys())], a
    snapshot of the keys. *)
Definition sweep (address_symbol_table : dict) : dict :=
  foldl sweep_key address_symbol_table (map_to_list address_symbol_table).*1.

Variable label_addresses : dict.

(** Body of the second loop of [__second_pass] on one line. *)
Definition second_pass_line (line : list string) (current_location : Z)
    (address_symbol_table : dict) : result (flow * dict) :=
  match line with
  | [] => Ok (Next current_location, address_symbol_table)
  | opcode :: _ =>
      if is_pseudo_instruction opcode then
        if String.eqb (Py.lower opcode) "org" then
          tok1 ← item line 1;
          target ← Py.int16 tok1;
          Ok (Next target, address_symbol_table)
        else if String.eqb (Py.lower opcode) "end" then
          Ok (Break, address_symbol_table)
        else
          Ok (Next (current_location + 1), address_symbol_table)
      else
        match mri_table !! Py.lower opcode with
        | Some operation_code =>
            tok1 ← item line 1;
            address ← getitem label_addresses tok1;
            binary_address ← format2bin address "dec" 12;
            let directness := if Py.has_char "I" opcode then "1" else "0" in
            let binary_instruction :=
              directness +:+ operation_code +:+ binary_address in
            key ← location_key current_location;
            Ok (Next (current_location + 1),
                <[key := binary_instruction]> address_symbol_table)
        | None => Ok (Next (current_location + 1), address_symbol_table)
        end
  end.

Fixpoint second_pass_loop (lines : list (list string)) (current_location : Z)
    (address_symbol_table : dict) : exit * dict :=
  match lines with
  | [] => (Exhausted current_location, address_symbol_table)
  | line :: rest =>
      match second_pass_line line current_location address_symbol_table with
      | Raise e => (Failed e, address_symbol_table)
      | Ok (Break, ast) => (Stopped, ast)
      | Ok (Next loc, ast) => second_pass_loop rest loc ast
      end
  end.

(** [__second_pass]: the sweep, then the loop over the lines from
    counter 0.  [Stopped] is the exit through the end directive, where
    [self.__bin] is bound to the address-symbol table. *)
Definition second_pass (asm : list (list string)) (address_symbol_table : dict)
    : exit * dict :=
  second_pass_loop asm 0 (sweep address_symbol_table).

End second_pass.

(** ** The object and [assemble] *)

(** The attributes of an [Assembler].  [__bin] is either the empty dict the
    constructor made or, once Pass Two executed
    [self.__bin = self.__address_symbol_table], the very same dict object as
    the address-symbol table: [bin_is_table] records which. *)
Record Assembler : Type := {
  asm : list (list string);
  address_symbol_table : dict;
  label_addresses : dict;
  bin_is_table : bool;
  mri_table : dict;
  rri_table : dict;
  ioi_table : dict;
}.

(** The contents of [self.__bin]. *)
Definition bin (self : Assembler) : dict :=
  if bin_is_table self then address_symbol_table self else ∅.

(** The object the constructor builds, once a program and the three
    tables are loaded. *)
Definition new (asm : list (list string)) (mri rri ioi : dict) : Assembler :=
  {| asm := asm; address_symbol_table := ∅; label_addresses := ∅;
     bin_is_table := false;
     mri_table := mri; rri_table := rri; ioi_table := ioi |}.

Definition set_state (self : Assembler) (lines : list (list string))
    (ast la : dict) (aliased : bool) : Assembler :=
  {| asm := lines; address_symbol_table := ast; label_addresses := la;
     bin_is_table := aliased;
     mri_table := mri_table self; rri_table := rri_table self;
     ioi_table := ioi_table self |}.

(** [assemble()] with the program already loaded ([inp] left at its
    default): the object after the call, and the value returned or the
    exception raised.  An empty program fails the first assertion. *)
Definition assemble (self : Assembler) : Assembler * result dict :=
  match asm self with
  | [] => (self, Raise AssertionError)
  | _ :: _ =>
      let lines := rm_comments (asm self) in
      let '(e1, ast1, la1) :=
        first_pass lines (address_symbol_table self) (label_addresses self) in
      match e1 with
      | Failed e => (set_state self lines ast1 la1 (bin_is_table self), Raise e)
      | _ =>
          let '(e2, ast2) :=
            second_pass (mri_table self) (rri_table self) (ioi_table self)
              la1 lines ast1 in
          match e2 with
          | Failed e =>
              (set_state self lines ast2 la1 (bin_is_table self), Raise e)
          | Stopped => (set_state self lines ast2 la1 true, Ok ast2)
          | Exhausted _ =>
              let self' := set_state self lines ast2 la1 (bin_is_table self) in
              (self', Ok (bin self'))
          end
      end
  end.

(** The result of assembling a program with a freshly built object. *)
Definition assemble_program (asm : list (list string)) (mri rri ioi : dict)
    : result dict :=
  (assemble (new asm mri rri ioi)).2.


(** ** Reading the program and the tables *)

Module Text.

(** White space for [str.split()] and [str.rstrip()] on ASCII text: the
    characters 9 to 13, 28 to 31 and the space. *)
Definition is_space (c : ascii) : bool :=
  let n := nat_of_ascii c in
  ((9 <=? n)%nat && (n <=? 13)%nat) || ((28 <=? n)%nat && (n <=? 32)%nat).

(** [s.rstrip()] *)
Fixpoint rstrip (s : string) : string :=
  match s with
  | EmptyString => EmptyString
  | String c s' =>
      match rstrip s' with
      | EmptyString => if is_space c then EmptyString else String c EmptyString
      | r => String c r
      end
  end.

(** [s.split()]: the maximal runs of characters that are not white space. *)
Fixpoint split (s : string) : list string :=
  match s with
  | EmptyString => []
  | String c s' =>
      if is_space c then split s'
      else
        match s' with
        | EmptyString => [String c EmptyString]
        | String d _ =>
            if is_space d then String c EmptyString :: split s'
            else
              match split s' with
              | tok :: rest => String c tok :: rest
              | [] => [String c EmptyString]
              end
        end
  end.

(** [s.endswith(suffix)] *)
Definition endswith (s suffix : string) : bool :=
  let n := String.length s in
  let m := String.length suffix in
  (m <=? n)%nat && String.eqb (String.substring (n - m) m s) suffix.

(** [path.split('/')[-1]] *)
Fixpoint last_component (path : string) : string :=
  match path with
  | EmptyString => EmptyString
  | String c path' =>
      if Py.has_char "/" path' then last_component path'
      else if Ascii.eqb c "/" then path'
      else path
  end.

End Text.

(** The expression [s.rstrip().lower().split()] that [read_code] and
    [__load_table] apply to every line of a file. *)
Definition tokens (s : string) : list string :=
  Text.split (Py.lower (Text.rstrip s)).

(** [read_code], given the lines [f.readlines()] of the file at [path]:
    the new values of [__asmfile] and [__asm]. *)
Definition read_code (path : string) (readlines : list string)
    : result (string * list (list string)) :=
  if Text.endswith path ".asm" || Text.endswith path ".S" then
    Ok (Text.last_component path, map tokens readlines)
  else Raise AssertionError.

(** The dict comprehension [{opcode:binary for opcode,binary in t}] of
    [__load_table]: every row must unpack into exactly two tokens, a later
    row replaces an earlier one with the same first token.  The payload of
    the [ValueError] only tells the two kinds of failed unpacking apart. *)
Fixpoint table_of_rows (rows : list (list string)) (table : dict) : result dict :=
  match rows with
  | [] => Ok table
  | [opcode; binary] :: rest => table_of_rows rest (<[opcode := binary]> table)
  | (_ :: _ :: _ :: _) :: _ => Raise (ValueError "too many values to unpack")
  | _ :: _ => Raise (ValueError "not enough values to unpack")
  end.

(** [__load_table], given the lines [f.readlines()] of the table file. *)
Definition load_table (readlines : list string) : result dict :=
  table_of_rows (map tokens readlines) ∅.

(** ** Notions used to state the properties *)

(** The key of a location, as a total function. *)
Definition key_of (current_location : Z) : string :=
  Py.zfill 12 (Py.format_b current_location).

(** What the sweep makes of one cell value: the I/O table wins over the
    register-reference table, as its assignment comes second. *)
Definition sweep_value (rri_table ioi_table : dict) (value : string) : string :=
  match ioi_table !! value with
  | Some word => word
  | None =>
      match rri_table !! value with
      | Some word => word
      | None => value
      end
  end.

(** A line that Pass One stores in a cell: not empty and neither the
    origin nor the end directive. *)
Definition stored (line : list string) : bool :=
  match line with
  | [] => false
  | opcode :: _ =>
      islabel opcode || negb (String.eqb opcode "org" || String.eqb opcode "end")
  end.

(** The tokens as [read_code] leaves them: in lower case. *)
Definition lowercase (lines : list (list string)) : Prop :=
  Forall (Forall (λ tok, Py.lower tok = tok)) lines.

(** The location counter with which Pass One, started with counter [loc0],
    arrives at line [i], when it gets there. *)
Definition arrival_from (loc0 : Z) (lines : list (list string)) (i : nat)
    : option Z :=
  match (first_pass_loop (take i lines) loc0 ∅ ∅).1.1 with
  | Exhausted loc => Some loc
  | _ => None
  end.

(** The key of the cell in which Pass One stores line [i]. *)
Definition cell_key_from (loc0 : Z) (lines : list (list string)) (i : nat)
    : option string :=
  match lines !! i with
  | Some line => if stored line then key_of <$> arrival_from loc0 lines i else None
  | None => None
  end.

Definition arrival := arrival_from 0.
Definition cell_key := cell_key_from 0.

(** The number that a string of binary digits stands for, most
    significant digit first. *)
Fixpoint binary_value_from (acc : Z) (s : string) : Z :=
  match s with
  | EmptyString => acc
  | String c s' =>
      binary_value_from (2 * acc + (if Ascii.eqb c "1" then 1 else 0)) s'
  end.

Definition binary_value (s : string) : Z := binary_value_from 0 s.

(** Some line is the end directive. *)
Definition has_end (lines : list (list string)) : Prop :=
  Exists (λ line, head line = Some "end") lines.

(** Every character of a string passes a test. *)
Fixpoint all_chars (P : ascii → bool) (s : string) : bool :=
  match s with
  | EmptyString => true
  | String c s' => P c && all_chars P s'
  end.

(** A line whose first token is a label whose name is [name]. *)
Definition defines (name : string) (line : list string) : bool :=
  match line with
  | [] => false
  | opcode :: _ => islabel opcode && String.eqb (Py.drop_last opcode) name
  end.

(** A character that [str.lower] leaves as it is. *)
Definition lower_fixed (c : ascii) : bool := Ascii.eqb (Py.lower_ascii c) c.

(** Every address in the label table is the decimal text of a location. *)
Definition addresses_are_numbers (la : dict) : Prop :=
  ∀ name address, la !! name = Some address → ∃ loc, address = Py.str loc.

(** The decimal text of the number has at most 4300 digits, the sign not
    counted: CPython's limit for the conversion between [int] and decimal
    text. *)
Definition within_str_limit (n : Z) : Prop :=
  (String.length (Py.str (Z.abs n)) ≤ 4300)%nat.

(** ** Facts about the built-ins *)

Lemma isdigit_plain (c : ascii) :
  Py.isdigit c = true →
  Py.isspace c = false ∧ Ascii.eqb c "_" = false ∧
  Ascii.eqb c "-" = false ∧ Ascii.eqb c "+" = false.
Proof. destruct c as [[] [] [] [] [] [] [] []]; intros H; by try discriminate H. Qed.

Lemma uint_digits (u : Decimal.uint) :
  all_chars Py.isdigit (NilEmpty.string_of_uint u) = true.
Proof. induction u as [|u IH|u IH|u IH|u IH|u IH|u IH|u IH|u IH|u IH|u IH]; done. Qed.

Lemma rstrip_plain (s : string) :
  all_chars (λ c, negb (Py.isspace c)) s = true → Py.rstrip s = s.
Proof.
  induction s as [|c s IH]; [done|].
  cbn [all_chars Py.rstrip]. intros [Hc Hs]%andb_prop.
  rewrite (IH Hs). apply negb_true_iff in Hc. rewrite Hc. by destruct s.
Qed.

Lemma strip_plain (s : string) :
  all_chars (λ c, negb (Py.isspace c)) s = true → Py.strip s = s.
Proof.
  intros Hs. unfold Py.strip. rewrite (rstrip_plain _ Hs).
  destruct s as [|c s]; [done|]. cbn in Hs. apply andb_prop in Hs as [Hc _].
  apply negb_true_iff in Hc. cbn. by rewrite Hc.
Qed.

Lemma digits_no_space (s : string) :
  all_chars Py.isdigit s = true →
  all_chars (λ c, negb (Py.isspace c)) s = true.
Proof.
  induction s as [|c s IH]; [done|].
  cbn [all_chars]. intros [Hc Hs]%andb_prop.
  destruct (isdigit_plain c Hc) as (Hsp & _). by rewrite Hsp, IH.
Qed.

Lemma dec_digits_plain (s : string) (after_digit : bool) :
  all_chars Py.isdigit s = true →
  s ≠ EmptyString ∨ after_digit = true →
  Py.dec_digits s after_digit = Some s.
Proof.
  revert after_digit. induction s as [|c s IH]; intros after_digit Hs Hne.
  { destruct Hne as [? | ->]; done. }
  cbn [all_chars] in Hs. apply andb_prop in Hs as [Hc Hs].
  cbn [Py.dec_digits]. destruct (isdigit_plain c Hc) as (_ & Hu & _).
  rewrite Hu, Hc, (IH true Hs) by by right. done.
Qed.

(** The decimal text of a number is read back as it is. *)
Lemma dec_text_str (n : Z) : Py.dec_text (Py.strip (Py.str n)) = Some (Py.str n).
Proof.
  assert (∀ u, u ≠ Decimal.Nil →
            NilZero.string_of_uint u = NilEmpty.string_of_uint u ∧
            NilEmpty.string_of_uint u ≠ EmptyString) as Hu.
  { intros u Hne. by destruct u. }
  assert (∀ u, u ≠ Decimal.Nil →
            Py.dec_text (Py.strip (NilZero.string_of_uint u))
            = Some (NilZero.string_of_uint u)) as Hpos.
  { intros u Hne. destruct (Hu u Hne) as [-> Hnonempty].
    pose proof (uint_digits u) as Hd.
    rewrite strip_plain by by apply digits_no_space.
    destruct (NilEmpty.string_of_uint u) as [|c s] eqn:Hs; [done|].
    cbn [Py.dec_text]. pose proof Hd as Hd'. cbn in Hd'.
    apply andb_prop in Hd' as [Hc _].
    destruct (isdigit_plain c Hc) as (_ & _ & Hm & Hp). rewrite Hm, Hp.
    apply dec_digits_plain; [done|by left]. }
  assert (∀ u, u ≠ Decimal.Nil →
            Py.dec_text (Py.strip (String "-" (NilZero.string_of_uint u)))
            = Some (String "-" (NilZero.string_of_uint u))) as Hneg.
  { intros u Hne. destruct (Hu u Hne) as [-> Hnonempty].
    pose proof (uint_digits u) as Hd.
    rewrite strip_plain
      by (cbn [all_chars]; by rewrite (digits_no_space _ Hd)).
    cbn [Py.dec_text Ascii.eqb Bool.eqb].
    by rewrite dec_digits_plain by (done || by left). }
  unfold Py.str. destruct n as [|p|p]; cbn [Z.to_int NilZero.string_of_int].
  - by apply Hpos.
  - apply Hpos, Unsigned.to_uint_nonnil.
  - apply Hneg, Unsigned.to_uint_nonnil.
Qed.

Lemma int10_str (n : Z) : Py.int10 (Py.str n) = Ok n.
Proof.
  unfold Py.int10. rewrite dec_text_str. cbn [mbind option_bind].
  unfold Py.str. rewrite NilZero.isi.
  - by rewrite DecimalZ.of_to.
  - destruct n as [|p|p]; simpl; try discriminate.
    intros [= H]. by apply Unsigned.to_uint_nonnil in H.
  - destruct n as [|p|p]; simpl; try discriminate.
    intros [= H]. by apply Unsigned.to_uint_nonnil in H.
Qed.


Lemma location_key_ok (n : Z) : location_key n = Ok (key_of n).
Proof. unfold location_key, format2bin. simpl. by rewrite int10_str. Qed.

Lemma format2bin_dec_str (n : Z) (w : nat) :
  format2bin (Py.str n) "dec" w = Ok (Py.zfill w (Py.format_b n)).
Proof. unfold format2bin. simpl. by rewrite int10_str. Qed.

Lemma format2bin_hex (tok : string) (w : nat) (n : Z) :
  Py.int16 tok = Ok n → format2bin tok "hex" w = Ok (Py.zfill w (Py.format_b n)).
Proof. intros H. unfold format2bin. simpl. by rewrite H. Qed.

Lemma lower_ascii_comma (c : ascii) :
  Ascii.eqb (Py.lower_ascii c) "," = Ascii.eqb c ",".
Proof.
  destruct c as [[] [] [] [] [] [] [] []]; reflexivity.
Qed.

Lemma last_char_lower (s : string) :
  Py.last_char (Py.lower s) = Py.lower_ascii <$> Py.last_char s.
Proof.
  induction s as [|c s IH]; [done|].
  simpl. destruct s as [|d s]; [done|]. exact IH.
Qed.

Lemma islabel_lower (s : string) : islabel (Py.lower s) = islabel s.
Proof.
  unfold islabel, Py.endswith. rewrite last_char_lower.
  destruct (Py.last_char s); simpl; [apply lower_ascii_comma | done].
Qed.

(** A label is never one of the pseudo-instructions. *)
Lemma islabel_not_pseudo (s : string) :
  islabel s = true → is_pseudo_instruction s = false.
Proof.
  intros H. rewrite <- islabel_lower in H.
  unfold is_pseudo_instruction. apply bool_decide_eq_false.
  intros Hin. rewrite !elem_of_cons in Hin.
  destruct Hin as [E | [E | [E | Hin]]]; try (rewrite E in H; discriminate).
  by apply elem_of_nil in Hin.
Qed.

Lemma is_pseudo_lowercase (s : string) :
  Py.lower s = s →
  is_pseudo_instruction s =
  String.eqb s "org" || String.eqb s "end" || String.eqb s "dec".
Proof.
  intros Hlow. unfold is_pseudo_instruction. rewrite Hlow.
  destruct (String.eqb s "org") eqn:Horg.
  { apply String.eqb_eq in Horg as ->. apply bool_decide_eq_true. set_solver. }
  destruct (String.eqb s "end") eqn:Hend.
  { apply String.eqb_eq in Hend as ->. apply bool_decide_eq_true. set_solver. }
  destruct (String.eqb s "dec") eqn:Hdec.
  { apply String.eqb_eq in Hdec as ->. apply bool_decide_eq_true. set_solver. }
  apply String.eqb_neq in Horg, Hend, Hdec.
  apply bool_decide_eq_false. set_solver.
Qed.

Lemma rm_comments_line_idemp (line : list string) :
  rm_comments_line (rm_comments_line line) = rm_comments_line line.
Proof.
  induction line as [|tok rest IH]; [done|].
  simpl. destruct (Py.startswith tok "/") eqn:E; [done|].
  simpl. by rewrite E, IH.
Qed.

Lemma rm_comments_idemp (asm : list (list string)) :
  rm_comments (rm_comments asm) = rm_comments asm.
Proof.
  unfold rm_comments. rewrite map_map.
  apply map_ext. intros. apply rm_comments_line_idemp.
Qed.

(** ** The sweep of Pass Two is a pointwise replacement *)

Section sweep.
Variables rri_table ioi_table : dict.


Lemma sweep_key_lookup (t : dict) (key k : string) :
  sweep_key rri_table ioi_table t key !! k =
  if decide (k = key) then sweep_value rri_table ioi_table <$> t !! key else t !! k.
Proof.
  unfold sweep_key, sweep_value.
  destruct (t !! key) as [value|] eqn:Hkey.
  - simpl. destruct (ioi_table !! value), (rri_table !! value);
      case_decide; simplify_map_eq; done.
  - case_decide; simplify_eq; by rewrite ?Hkey.
Qed.

Lemma sweep_keys_lookup (keys : list string) (t : dict) (k : string) :
  NoDup keys →
  foldl (sweep_key rri_table ioi_table) t keys !! k =
  if decide (k ∈ keys) then sweep_value rri_table ioi_table <$> t !! k else t !! k.
Proof.
  revert t. induction keys as [|key keys IH]; intros t Hnd.
  - cbn [foldl]. destruct (decide (k ∈ [])) as [H|H]; [by apply elem_of_nil in H | done].
  - apply NoDup_cons in Hnd as [Hnotin Hnd]. cbn [foldl].
    rewrite IH by done. rewrite !sweep_key_lookup.
    destruct (decide (k ∈ keys)), (decide (k = key)), (decide (k ∈ key :: keys));
      simplify_eq; try done; exfalso; set_solver.
Qed.

Lemma sweep_fmap (t : dict) :
  sweep rri_table ioi_table t = sweep_value rri_table ioi_table <$> t.
Proof.
  apply map_eq. intros k. unfold sweep.
  rewrite sweep_keys_lookup by apply NoDup_fst_map_to_list.
  rewrite lookup_fmap. case_decide as Hin; [done|].
  destruct (t !! k) as [v|] eqn:Hk; [|done].
  exfalso. apply Hin. apply list_elem_of_fmap.
  exists (k, v). split; [done|]. by apply elem_of_map_to_list.
Qed.

Lemma sweep_lookup (t : dict) (k : string) :
  sweep rri_table ioi_table t !! k = sweep_value rri_table ioi_table <$> t !! k.
Proof. by rewrite sweep_fmap, lookup_fmap. Qed.

End sweep.

(** ** One line at a time *)


Ltac case_bind :=
  match goal with
  | H : context [mbind _ ?r] |- _ =>
      let E := fresh "E" in
      destruct r eqn:E; cbn [mbind result_bind] in H
  | |- context [mbind _ ?r] =>
      let E := fresh "E" in
      destruct r eqn:E; cbn [mbind result_bind]
  end.

Ltac case_if :=
  match goal with
  | H : context [if ?b then _ else _] |- _ =>
      let E := fresh "E" in destruct b eqn:E
  | |- context [if ?b then _ else _] =>
      let E := fresh "E" in destruct b eqn:E
  end.

(** Pass One on one line: either the line is stored, at the key of the
    current location and the counter moves on by one, or the address-symbol
    table is left alone. *)
Lemma first_pass_line_inv line loc ast la f ast' la' :
  first_pass_line line loc ast la = Ok (f, ast', la') →
  (stored line = true ∧ f = Next (loc + 1) ∧
   ∃ v, ast' = <[key_of loc := v]> ast) ∨
  (stored line = false ∧ ast' = ast ∧ la' = la).
Proof.
  unfold first_pass_line, stored. intros H.
  destruct line as [|opcode rest]; [right; by simplify_eq|].
  rewrite !location_key_ok in H. cbn [mbind result_bind] in H.
  destruct (islabel opcode) eqn:Hlab; cbn [orb].
  - left. repeat (first [case_bind | case_if]); simplify_eq; eauto.
  - destruct (String.eqb opcode "org") eqn:Horg; cbn [orb negb].
    { right. repeat case_bind; by simplify_eq. }
    destruct (String.eqb opcode "end") eqn:Hend; cbn [negb].
    { right. by simplify_eq. }
    left. simplify_eq. eauto.
Qed.

(** A stored line never ends Pass One's loop. *)
Lemma first_pass_line_stored line loc ast la f ast' la' :
  first_pass_line line loc ast la = Ok (f, ast', la') →
  stored line = true → f = Next (loc + 1).
Proof.
  intros H Hs. apply first_pass_line_inv in H as [(_ & -> & _)|(Hn & _)];
    [done | congruence].
Qed.

(** The tables Pass One starts from only sit under what it writes. *)
Lemma first_pass_line_overlay line loc ast la :
  first_pass_line line loc ast la =
  match first_pass_line line loc ∅ ∅ with
  | Ok (f, w, l) => Ok (f, w ∪ ast, l ∪ la)
  | Raise e => Raise e
  end.
Proof.
  unfold first_pass_line.
  destruct line as [|opcode rest].
  { by rewrite !(left_id_L ∅ (∪)). }
  rewrite !location_key_ok. cbn [mbind result_bind].
  repeat (first [case_if | case_bind]);
    rewrite <- ?insert_union_l, ?(left_id_L ∅ (∪)); done.
Qed.

Section second_pass_lines.
Variables mri la : dict.

(** Pass Two on one line: the only write is the encoded word of a
    memory-reference line, at the key of the current location. *)
Lemma second_pass_line_inv line loc ast f ast' :
  second_pass_line mri la line loc ast = Ok (f, ast') →
  ast' = ast ∨
  (f = Next (loc + 1) ∧ ∃ v, ast' = <[key_of loc := v]> ast).
Proof.
  unfold second_pass_line. intros H.
  destruct line as [|opcode rest]; [left; by simplify_eq|].
  rewrite !location_key_ok in H. cbn [mbind result_bind] in H.
  destruct (is_pseudo_instruction opcode).
  - left. repeat (first [case_if | case_bind]); by simplify_eq.
  - destruct (mri !! Py.lower opcode); [|left; by simplify_eq].
    right. repeat case_bind; simplify_eq. eauto.
Qed.

(** The address-symbol table Pass Two starts from only sits under what
    it writes, and does not influence the control flow. *)
Lemma second_pass_line_overlay line loc ast :
  second_pass_line mri la line loc ast =
  match second_pass_line mri la line loc ∅ with
  | Ok (f, w) => Ok (f, w ∪ ast)
  | Raise e => Raise e
  end.
Proof.
  unfold second_pass_line.
  destruct line as [|opcode rest].
  { by rewrite (left_id_L ∅ (∪)). }
  rewrite !location_key_ok. cbn [mbind result_bind].
  destruct (is_pseudo_instruction opcode).
  - repeat (first [case_if | case_bind]); by rewrite ?(left_id_L ∅ (∪)).
  - destruct (mri !! Py.lower opcode).
    + repeat case_bind; by rewrite <- ?insert_union_l, ?(left_id_L ∅ (∪)).
    + by rewrite (left_id_L ∅ (∪)).
Qed.

(** With lower-case tokens the two passes move the location counter in
    step, and Pass Two writes only on lines that Pass One stored. *)
Lemma passes_in_step line loc a b f1 a1 b1 ast f2 ast2 :
  Forall (λ tok, Py.lower tok = tok) line →
  first_pass_line line loc a b = Ok (f1, a1, b1) →
  second_pass_line mri la line loc ast = Ok (f2, ast2) →
  f2 = f1 ∧
  (ast2 = ast ∨ (stored line = true ∧ ∃ v, ast2 = <[key_of loc := v]> ast)).
Proof.
  intros Hlow H1 H2.
  destruct line as [|opcode rest].
  { cbn in H1, H2. simplify_eq. eauto. }
  apply Forall_cons in Hlow as [Hop _].
  pose proof (first_pass_line_inv _ _ _ _ _ _ _ H1) as Hinv1.
  pose proof (second_pass_line_inv _ _ _ _ _ H2) as Hinv2.
  unfold first_pass_line in H1. unfold second_pass_line in H2.
  rewrite (is_pseudo_lowercase _ Hop), Hop in H2.
  rewrite !location_key_ok in H1, H2. cbn [mbind result_bind] in H1, H2.
  destruct (islabel opcode) eqn:Hlab.
  - assert (stored (opcode :: rest) = true) as Hst by (cbn; by rewrite Hlab).
    apply islabel_not_pseudo in Hlab as Hps.
    rewrite (is_pseudo_lowercase _ Hop) in Hps. rewrite Hps in H2.
    destruct Hinv1 as [(_ & -> & _)|(? & _)]; [|congruence].
    destruct Hinv2 as [->|(-> & v & ->)]; [|by eauto 6].
    split; [|by left].
    destruct (mri !! opcode); [repeat case_bind|]; by simplify_eq.
  - destruct (String.eqb opcode "org") eqn:Horg.
    { cbn [orb] in H2. repeat case_bind; simplify_eq.
      split; [congruence | by left]. }
    destruct (String.eqb opcode "end") eqn:Hend.
    { cbn [orb] in H2. simplify_eq. eauto. }
    assert (stored (opcode :: rest) = true) as Hst
      by (cbn; by rewrite Hlab, Horg, Hend).
    simplify_eq. cbn [orb] in H2.
    destruct (String.eqb opcode "dec").
    + simplify_eq. eauto.
    + destruct Hinv2 as [->|(-> & v & ->)]; [|by eauto 6].
      split; [|by left].
      destruct (mri !! opcode); [repeat case_bind|]; by simplify_eq.
Qed.

End second_pass_lines.

(** ** The loops *)

Lemma first_pass_loop_app pre post loc ast la :
  first_pass_loop (pre ++ post) loc ast la =
  match first_pass_loop pre loc ast la with
  | (Exhausted loc', ast', la') => first_pass_loop post loc' ast' la'
  | r => r
  end.
Proof.
  revert loc ast la. induction pre as [|line pre IH]; intros loc ast la; [done|].
  cbn [app first_pass_loop].
  destruct (first_pass_line line loc ast la) as [[[[loc'|] ast'] la']|e];
    [apply IH | done | done].
Qed.

Lemma first_pass_loop_overlay lines loc ast la :
  first_pass_loop lines loc ast la =
  match first_pass_loop lines loc ∅ ∅ with
  | (e, w, l) => (e, w ∪ ast, l ∪ la)
  end.
Proof.
  revert loc ast la. induction lines as [|line rest IH]; intros loc ast la.
  { cbn. by rewrite !(left_id_L ∅ (∪)). }
  cbn [first_pass_loop]. rewrite first_pass_line_overlay.
  destruct (first_pass_line line loc ∅ ∅) as [[[[loc'|] w] l]|e].
  - rewrite (IH loc' (w ∪ ast)), (IH loc' w l).
    destruct (first_pass_loop rest loc' ∅ ∅) as [[e' w'] l'].
    by rewrite !(assoc_L (∪)).
  - done.
  - by rewrite !(left_id_L ∅ (∪)).
Qed.

(** The control flow of Pass One does not depend on the tables. *)
Lemma first_pass_loop_exit lines loc ast la :
  (first_pass_loop lines loc ast la).1.1 = (first_pass_loop lines loc ∅ ∅).1.1.
Proof.
  rewrite first_pass_loop_overlay.
  by destruct (first_pass_loop lines loc ∅ ∅) as [[e w] l].
Qed.

Section second_pass_loops.
Variables mri la : dict.

Lemma second_pass_loop_app pre post loc ast :
  second_pass_loop mri la (pre ++ post) loc ast =
  match second_pass_loop mri la pre loc ast with
  | (Exhausted loc', ast') => second_pass_loop mri la post loc' ast'
  | r => r
  end.
Proof.
  revert loc ast. induction pre as [|line pre IH]; intros loc ast; [done|].
  cbn [app second_pass_loop].
  destruct (second_pass_line mri la line loc ast) as [[[loc'|] ast']|e];
    [apply IH | done | done].
Qed.

Lemma second_pass_loop_overlay lines loc ast :
  second_pass_loop mri la lines loc ast =
  match second_pass_loop mri la lines loc ∅ with
  | (e, w) => (e, w ∪ ast)
  end.
Proof.
  revert loc ast. induction lines as [|line rest IH]; intros loc ast.
  { cbn. by rewrite (left_id_L ∅ (∪)). }
  cbn [second_pass_loop]. rewrite second_pass_line_overlay.
  destruct (second_pass_line mri la line loc ∅) as [[[loc'|] w]|e].
  - rewrite (IH loc' (w ∪ ast)), (IH loc' w).
    destruct (second_pass_loop mri la rest loc' ∅) as [e' w'].
    by rewrite !(assoc_L (∪)).
  - done.
  - by rewrite (left_id_L ∅ (∪)).
Qed.

End second_pass_loops.

(** ** Where a line is stored *)


Lemma arrival_from_0 loc0 lines : arrival_from loc0 lines 0 = Some loc0.
Proof. unfold arrival_from. by rewrite take_0. Qed.

Lemma arrival_from_cons loc0 line rest j :
  arrival_from loc0 (line :: rest) (S j) =
  match first_pass_line line loc0 ∅ ∅ with
  | Ok (Next loc1, _, _) => arrival_from loc1 rest j
  | _ => None
  end.
Proof.
  unfold arrival_from. cbn [take first_pass_loop].
  destruct (first_pass_line line loc0 ∅ ∅) as [[[[loc1|] w] l]|e]; try done.
  by rewrite first_pass_loop_exit.
Qed.

Lemma cell_key_from_cons loc0 line rest j :
  cell_key_from loc0 (line :: rest) (S j) =
  match first_pass_line line loc0 ∅ ∅ with
  | Ok (Next loc1, _, _) => cell_key_from loc1 rest j
  | _ => None
  end.
Proof.
  unfold cell_key_from. cbn [lookup list_lookup]. rewrite arrival_from_cons.
  destruct (rest !! j) as [l|]; [|by repeat case_match].
  destruct (stored l); by repeat case_match.
Qed.

(** Pass One leaves alone every cell that is the cell of none of its lines. *)
Lemma first_pass_loop_frame k lines loc0 ast la :
  (∀ j, cell_key_from loc0 lines j ≠ Some k) →
  (first_pass_loop lines loc0 ast la).1.2 !! k = ast !! k.
Proof.
  revert loc0 ast la. induction lines as [|line rest IH]; intros loc0 ast la Hk;
    [done|].
  cbn [first_pass_loop].
  pose proof (first_pass_line_overlay line loc0 ast la) as Hov.
  destruct (first_pass_line line loc0 ast la) as [[[f ast'] la']|e] eqn:Hline;
    [|done].
  assert (ast' !! k = ast !! k) as Hsame.
  { apply first_pass_line_inv in Hline as [(Hst & _ & v & ->)|(_ & -> & _)];
      [|done].
    apply lookup_insert_ne. intros <-. apply (Hk 0%nat).
    unfold cell_key_from. cbn [lookup list_lookup].
    by rewrite Hst, arrival_from_0. }
  destruct f as [loc1|]; [|done].
  rewrite IH; [done|].
  intros j. specialize (Hk (S j)). rewrite cell_key_from_cons in Hk.
  destruct (first_pass_line line loc0 ∅ ∅) as [[[[loc1'|] w] l]|e]; by simplify_eq.
Qed.

Lemma first_pass_loop_cons_ok line rest loc0 ast la :
  (∀ e, (first_pass_loop (line :: rest) loc0 ast la).1.1 ≠ Failed e) →
  ∃ f w l, first_pass_line line loc0 ∅ ∅ = Ok (f, w, l) ∧
    match f with
    | Next loc1 => ∀ e, (first_pass_loop rest loc1 ∅ ∅).1.1 ≠ Failed e
    | Break => True
    end.
Proof.
  intros Hok. rewrite first_pass_loop_exit in Hok. cbn [first_pass_loop] in Hok.
  destruct (first_pass_line line loc0 ∅ ∅) as [[[f w] l]|e].
  - exists f, w, l. split; [done|]. destruct f as [loc1|]; [|done].
    by rewrite first_pass_loop_exit in Hok.
  - by destruct (Hok e).
Qed.

Section second_pass_frame.
Variables mri la : dict.

(** With lower-case tokens, Pass Two leaves alone every cell that is the
    cell of none of the lines it goes through. *)
Lemma second_pass_loop_frame k lines loc0 ast :
  lowercase lines →
  (∀ e, (first_pass_loop lines loc0 ∅ ∅).1.1 ≠ Failed e) →
  (∀ j, cell_key_from loc0 lines j ≠ Some k) →
  (second_pass_loop mri la lines loc0 ast).2 !! k = ast !! k.
Proof.
  revert loc0 ast. induction lines as [|line rest IH];
    intros loc0 ast Hlow Hok Hk; [done|].
  apply Forall_cons in Hlow as [Hline Hlow].
  apply first_pass_loop_cons_ok in Hok as (f1 & w & l & H1 & Hrest).
  cbn [second_pass_loop].
  destruct (second_pass_line mri la line loc0 ast) as [[f2 ast']|e] eqn:H2;
    [|done].
  destruct (passes_in_step _ _ _ _ _ _ _ _ _ _ _ _ Hline H1 H2)
    as [-> Hw].
  assert (ast' !! k = ast !! k) as Hsame.
  { destruct Hw as [->|(Hst & v & ->)]; [done|].
    apply lookup_insert_ne. intros <-. apply (Hk 0%nat).
    unfold cell_key_from. cbn [lookup list_lookup].
    by rewrite Hst, arrival_from_0. }
  destruct f1 as [loc1|]; [|done].
  rewrite IH; [done..|].
  intros j. specialize (Hk (S j)). rewrite cell_key_from_cons, H1 in Hk. done.
Qed.

(** With lower-case tokens, Pass Two leaves its loop the way Pass One
    left its own, unless one of them raises. *)
Lemma passes_exit_in_step lines loc0 ast :
  lowercase lines →
  (∀ e, (first_pass_loop lines loc0 ∅ ∅).1.1 ≠ Failed e) →
  (∀ e, (second_pass_loop mri la lines loc0 ast).1 ≠ Failed e) →
  (second_pass_loop mri la lines loc0 ast).1 =
  (first_pass_loop lines loc0 ∅ ∅).1.1.
Proof.
  revert loc0 ast. induction lines as [|line rest IH];
    intros loc0 ast Hlow Hok1 Hok2; [done|].
  apply Forall_cons in Hlow as [Hline Hlow].
  apply first_pass_loop_cons_ok in Hok1 as (f1 & w & l & H1 & Hrest).
  cbn [second_pass_loop first_pass_loop] in *. rewrite H1.
  destruct (second_pass_line mri la line loc0 ast) as [[f2 ast']|e] eqn:H2;
    [|by destruct (Hok2 e)].
  destruct (passes_in_step _ _ _ _ _ _ _ _ _ _ _ _ Hline H1 H2) as [-> _].
  destruct f1 as [loc1|]; [|done].
  rewrite first_pass_loop_exit. by apply IH.
Qed.

End second_pass_frame.

Lemma arrival_from_app pre rest loc0 loc' j :
  (first_pass_loop pre loc0 ∅ ∅).1.1 = Exhausted loc' →
  arrival_from loc0 (pre ++ rest) (length pre + j) = arrival_from loc' rest j.
Proof.
  intros Hpre. unfold arrival_from.
  rewrite take_app_add. rewrite first_pass_loop_app.
  destruct (first_pass_loop pre loc0 ∅ ∅) as [[e w] l]. cbn in Hpre. subst e.
  by rewrite first_pass_loop_exit.
Qed.

Lemma cell_key_from_app pre rest loc0 loc' j :
  (first_pass_loop pre loc0 ∅ ∅).1.1 = Exhausted loc' →
  cell_key_from loc0 (pre ++ rest) (length pre + j) = cell_key_from loc' rest j.
Proof.
  intros Hpre. unfold cell_key_from.
  rewrite lookup_app_r by lia.
  replace (length pre + j - length pre)%nat with j by lia.
  by rewrite (arrival_from_app _ _ _ loc').
Qed.

Lemma cell_key_from_prefix pre rest loc0 j :
  (j < length pre)%nat →
  cell_key_from loc0 (pre ++ rest) j = cell_key_from loc0 pre j.
Proof.
  intros Hj. unfold cell_key_from, arrival_from.
  rewrite lookup_app_l by done.
  rewrite take_app_le by lia. done.
Qed.

(** ** The final contents of a line's cell *)

Section cells.
Variables mri rri ioi : dict.

Lemma final_cell_split pre line post loc e1 ast1 la1 e2 ast2 :
  lowercase (pre ++ line :: post) →
  first_pass (pre ++ line :: post) ∅ ∅ = (e1, ast1, la1) →
  (∀ e, e1 ≠ Failed e) →
  second_pass mri rri ioi la1 (pre ++ line :: post) ast1 = (e2, ast2) →
  (∀ e, e2 ≠ Failed e) →
  (first_pass_loop pre 0 ∅ ∅).1.1 = Exhausted loc →
  stored line = true →
  (∀ j, cell_key_from 0 pre j ≠ Some (key_of loc)) →
  (∀ j, cell_key_from (loc + 1) post j ≠ Some (key_of loc)) →
  ∃ w1 l1 w2,
    first_pass_line line loc ∅ ∅ = Ok (Next (loc + 1), w1, l1) ∧
    second_pass_line mri la1 line loc ∅ = Ok (Next (loc + 1), w2) ∧
    ast2 !! key_of loc = (w2 ∪ (sweep_value rri ioi <$> w1)) !! key_of loc.
Proof.
  intros Hlow H1 Hok1 H2 Hok2 Harr Hst Hpre Hpost.
  apply Forall_app in Hlow as [Hlowpre Hlow].
  apply Forall_cons in Hlow as [Hlowline Hlowpost].
  (* Pass One *)
  unfold first_pass in H1. rewrite first_pass_loop_app in H1.
  destruct (first_pass_loop pre 0 ∅ ∅) as [[ep wp] lp] eqn:Hp1.
  cbn in Harr. subst ep.
  assert (∀ e, (first_pass_loop (line :: post) loc ∅ ∅).1.1 ≠ Failed e)
    as Hok1'.
  { intros e. rewrite <- (first_pass_loop_exit _ _ wp lp), H1. apply Hok1. }
  pose proof Hok1' as Hok1''.
  apply first_pass_loop_cons_ok in Hok1'' as (f1 & w1 & l1 & Hl1 & Hrest).
  pose proof (first_pass_line_stored _ _ _ _ _ _ _ Hl1 Hst) as ->.
  cbn [first_pass_loop] in H1.
  rewrite first_pass_line_overlay, Hl1 in H1.
  assert (ast1 !! key_of loc = (w1 ∪ wp) !! key_of loc) as Hast1.
  { pose proof (first_pass_loop_frame (key_of loc) post (loc + 1)
                  (w1 ∪ wp) (l1 ∪ lp) Hpost) as Hfr.
    by rewrite H1 in Hfr. }
  assert (is_Some (w1 !! key_of loc)) as [v1 Hv1].
  { apply first_pass_line_inv in Hl1 as [(_ & _ & v & ->)|(? & _)];
      [|congruence].
    rewrite lookup_insert_eq. eauto. }
  rewrite (lookup_union_Some_l _ _ _ _ Hv1) in Hast1.
  (* Pass Two *)
  unfold second_pass in H2. rewrite second_pass_loop_app in H2.
  set (swept := sweep rri ioi ast1) in *.
  assert (∀ e, (first_pass_loop pre 0 ∅ ∅).1.1 ≠ Failed e) as Hokpre
    by by rewrite Hp1.
  pose proof (passes_exit_in_step mri la1 pre 0 swept Hlowpre Hokpre) as Hexit.
  pose proof (second_pass_loop_frame mri la1 (key_of loc) pre 0 swept
                Hlowpre Hokpre Hpre) as Hfrpre.
  destruct (second_pass_loop mri la1 pre 0 swept) as [ep2 astp] eqn:Hp2.
  cbn in Hexit, Hfrpre. rewrite Hp1 in Hexit. cbn in Hexit.
  rewrite Hexit in H2.
  { cbn [second_pass_loop] in H2.
    rewrite second_pass_line_overlay in H2.
    destruct (second_pass_line mri la1 line loc ∅) as [[f2 w2]|e] eqn:Hl2;
      [|simplify_eq; by destruct (Hok2 e)].
    destruct (passes_in_step mri la1 _ _ _ _ _ _ _ ∅ _ _ Hlowline Hl1 Hl2)
      as [-> _].
    exists w1, l1, w2. split; [done|]. split; [done|].
    pose proof (second_pass_loop_frame mri la1 (key_of loc) post (loc + 1)
                  (w2 ∪ astp) Hlowpost Hrest Hpost) as Hfrpost.
    rewrite H2 in Hfrpost. cbn in Hfrpost. rewrite Hfrpost.
    rewrite !lookup_union, Hfrpre, lookup_fmap.
    unfold swept. by rewrite sweep_lookup, Hast1, Hv1. }
  intros e ->. cbn in H2. simplify_eq. by destruct (Hok2 e).
Qed.

End cells.

(** ** Whole programs *)


Lemma second_pass_loop_has_end mri la lines loc ast :
  has_end lines →
  ∀ loc', (second_pass_loop mri la lines loc ast).1 ≠ Exhausted loc'.
Proof.
  intros Hend. revert loc ast.
  induction lines as [|line rest IH]; intros loc ast loc'.
  { by apply Exists_nil in Hend. }
  cbn [second_pass_loop].
  destruct (second_pass_line mri la line loc ast) as [[[loc1|] ast1]|e] eqn:Hl;
    [|done..].
  apply Exists_cons in Hend as [Hhead|Hend]; [|by apply IH].
  destruct line as [|opcode tl]; [done|]. cbn in Hhead. simplify_eq.
Qed.

Lemma first_pass_loop_middle pre line post loc e1 ast1 la1 :
  first_pass_loop (pre ++ line :: post) 0 ∅ ∅ = (e1, ast1, la1) →
  (∀ e, e1 ≠ Failed e) →
  (first_pass_loop pre 0 ∅ ∅).1.1 = Exhausted loc →
  stored line = true →
  (first_pass_loop (pre ++ [line]) 0 ∅ ∅).1.1 = Exhausted (loc + 1).
Proof.
  intros H1 Hok Hpre Hst. rewrite first_pass_loop_app in *.
  destruct (first_pass_loop pre 0 ∅ ∅) as [[ep wp] lp].
  cbn in Hpre. subst ep. cbn [first_pass_loop] in *.
  destruct (first_pass_line line loc wp lp) as [[[f w] l]|e] eqn:Hl;
    [|simplify_eq; by destruct (Hok e)].
  by apply first_pass_line_stored in Hl as ->.
Qed.

(** [assemble] on a fresh object, by cases on how the two passes end. *)
Lemma assemble_program_unfold asm mri rri ioi :
  asm ≠ [] →
  assemble_program asm mri rri ioi =
  match first_pass (rm_comments asm) ∅ ∅ with
  | (Failed e, _, _) => Raise e
  | (_, ast1, la1) =>
      match second_pass mri rri ioi la1 (rm_comments asm) ast1 with
      | (Failed e, _) => Raise e
      | (Stopped, ast2) => Ok ast2
      | (Exhausted _, _) => Ok ∅
      end
  end.
Proof.
  intros Hne. unfold assemble_program, assemble.
  cbn -[rm_comments first_pass second_pass].
  destruct asm as [|l0 asm0]; [done|].
  destruct (first_pass (rm_comments (l0 :: asm0)) ∅ ∅) as [[e1 ast1] la1].
  destruct e1 as [loc1| |e]; [| |done];
    destruct (second_pass mri rri ioi la1 (rm_comments (l0 :: asm0)) ast1)
      as [[loc2| |e] ast2]; done.
Qed.

Lemma assemble_program_nil mri rri ioi :
  assemble_program [] mri rri ioi = Raise AssertionError.
Proof. done. Qed.

(** What a successful [assemble] of a fresh object went through. *)
Lemma assemble_program_Ok asm mri rri ioi out :
  assemble_program asm mri rri ioi = Ok out →
  ∃ e1 ast1 la1 e2 ast2,
    first_pass (rm_comments asm) ∅ ∅ = (e1, ast1, la1) ∧
    (∀ e, e1 ≠ Failed e) ∧
    second_pass mri rri ioi la1 (rm_comments asm) ast1 = (e2, ast2) ∧
    (∀ e, e2 ≠ Failed e) ∧
    out = match e2 with Stopped => ast2 | _ => ∅ end.
Proof.
  destruct (decide (asm = [])) as [->|Hne]; [done|].
  rewrite assemble_program_unfold by done.
  destruct (first_pass (rm_comments asm) ∅ ∅) as [[e1 ast1] la1].
  destruct (second_pass mri rri ioi la1 (rm_comments asm) ast1)
    as [e2 ast2] eqn:H2.
  intros Hout. exists e1, ast1, la1, e2, ast2.
  destruct e1 as [loc1| |e]; [| |done];
    destruct e2 as [loc2| |e]; by simplify_eq.
Qed.

(** The cell of a stored line [i] that shares its cell with no other line,
    for a lower-case program that assembles and has an end directive: the
    final mapping holds what Pass Two wrote for the line, and otherwise
    the swept value of what Pass One stored. *)
Lemma final_cell asm mri rri ioi out i line loc :
  lowercase (rm_comments asm) →
  has_end (rm_comments asm) →
  assemble_program asm mri rri ioi = Ok out →
  rm_comments asm !! i = Some line →
  stored line = true →
  arrival (rm_comments asm) i = Some loc →
  (∀ j, j ≠ i → cell_key (rm_comments asm) j ≠ Some (key_of loc)) →
  ∃ la1 w1 l1 w2,
    first_pass_line line loc ∅ ∅ = Ok (Next (loc + 1), w1, l1) ∧
    second_pass_line mri la1 line loc ∅ = Ok (Next (loc + 1), w2) ∧
    out !! key_of loc = (w2 ∪ (sweep_value rri ioi <$> w1)) !! key_of loc.
Proof.
  intros Hlow Hend Hout Hi Hst Harr Huniq.
  apply assemble_program_Ok in Hout
    as (e1 & ast1 & la1 & e2 & ast2 & H1 & Hok1 & H2 & Hok2 & ->).
  set (lines := rm_comments asm) in *.
  assert (e2 = Stopped) as ->.
  { pose proof (second_pass_loop_has_end mri la1 lines 0 (sweep rri ioi ast1) Hend)
      as Hne.
    unfold second_pass in H2. rewrite H2 in Hne. cbn in Hne.
    destruct e2 as [loc2| |e]; [by destruct (Hne loc2) | done | by destruct (Hok2 e)]. }
  pose proof (take_drop_middle _ _ _ Hi) as Hsplit.
  pose proof (lookup_lt_Some _ _ _ Hi) as Hlen.
  assert (length (take i lines) = i) as Hlenpre by (rewrite length_take; lia).
  assert ((first_pass_loop (take i lines) 0 ∅ ∅).1.1 = Exhausted loc) as Hpre.
  { unfold arrival, arrival_from in Harr.
    destruct ((first_pass_loop (take i lines) 0 ∅ ∅).1.1); by simplify_eq. }
  unfold cell_key in Huniq.
  rewrite <- Hsplit in H1, H2, Hlow, Huniq.
  exists la1.
  apply (final_cell_split mri rri ioi _ _ _ _ _ _ _ _ _ Hlow H1 Hok1 H2 Hok2 Hpre Hst).
  - intros j. destruct (decide (j < i)%nat) as [Hj|Hj].
    + rewrite <- (cell_key_from_prefix _ (line :: drop (S i) lines)) by lia.
      apply Huniq. lia.
    + unfold cell_key_from. rewrite lookup_ge_None_2 by lia. done.
  - intros j.
    rewrite <- (cell_key_from_app (take i lines ++ [line]) _ 0).
    + rewrite <- (assoc_L (++)). cbn [app]. apply Huniq.
      rewrite length_app. cbn. lia.
    + by eapply first_pass_loop_middle.
Qed.

(** ** The origin directive *)

Lemma first_pass_line_org operand target rest loc ast la :
  Py.int16 operand = Ok target →
  first_pass_line ("org" :: operand :: rest) loc ast la
  = Ok (Next target, ast, la).
Proof. intros Hop. unfold first_pass_line. cbn. by rewrite Hop. Qed.

Lemma second_pass_line_org mri la operand target rest loc ast :
  Py.int16 operand = Ok target →
  second_pass_line mri la ("org" :: operand :: rest) loc ast
  = Ok (Next target, ast).
Proof. intros Hop. unfold second_pass_line. cbn. by rewrite Hop. Qed.

(** The line after an origin directive is stored at the directive's
    operand, whatever the counter was. *)
Lemma origin_then_instruction (operand mnemonic : string) (target loc : Z) :
  Py.int16 operand = Ok target →
  islabel mnemonic = false → mnemonic ≠ "org" → mnemonic ≠ "end" →
  first_pass_loop [["org"; operand]; [mnemonic]] loc ∅ ∅
  = (Exhausted (target + 1), {[ key_of target := mnemonic ]}, ∅).
Proof.
  intros Hop Hlab Horg Hend. cbn [first_pass_loop].
  rewrite (first_pass_line_org _ _ _ _ _ _ Hop).
  unfold first_pass_line. rewrite Hlab, location_key_ok.
  apply String.eqb_neq in Horg, Hend. by rewrite Horg, Hend.
Qed.

(** C8: in Pass One and in Pass Two alike, a line whose first token is the
    origin directive sets the location counter to the value of its second
    token read as a hexadecimal literal; the counter is not incremented on
    that line and the address-symbol table (and the label table) is
    returned as it was. *)
Theorem origin_sets_location_counter
    (operand : string) (target : Z) (rest : list string)
    (current_location : Z) (ast la mri : dict) :
  Py.int16 operand = Ok target →
  first_pass_line ("org" :: operand :: rest) current_location ast la
    = Ok (Next target, ast, la) ∧
  second_pass_line mri la ("org" :: operand :: rest) current_location ast
    = Ok (Next target, ast).
Proof.
  intros Hop. split.
  - by apply first_pass_line_org.
  - by apply second_pass_line_org.
Qed.

Lemma origin_sets_location_counter_witness :
  first_pass_line ["org"; "100"] 7 ∅ ∅ = Ok (Next 256, ∅, ∅) ∧
  second_pass_line ∅ ∅ ["org"; "100"] 7 ∅ = Ok (Next 256, ∅).
Proof. apply (origin_sets_location_counter "100" 256 [] 7 ∅ ∅ ∅). reflexivity. Defined.

(** ** Labeled lines need an operand *)

Lemma labeled_line_shape line loc ast la r label :
  first_pass_line line loc ast la = Ok r →
  head line = Some label → islabel label = true →
  (2 ≤ length line)%nat ∧ (line !! 1%nat = Some "hex" → (3 ≤ length line)%nat).
Proof.
  intros Hline Hhead Hlab.
  destruct line as [|opcode [|tok1 [|tok2 rest]]]; cbn in Hhead; simplify_eq.
  - unfold first_pass_line in Hline. by rewrite Hlab in Hline.
  - split; [cbn; lia|]. intros [= ->].
    unfold first_pass_line in Hline. by rewrite Hlab in Hline.
  - cbn. lia.
Qed.

(** C10: Pass One needs a token after every label.  On a line made of a
    label alone the loop body raises an index error, whatever the state;
    when Pass One reaches such a line it ends with that error and with the
    tables as they were before the line (no label recorded, no cell
    written); and a run of Pass One that does not raise has, on every
    labeled line it reached, at least two tokens, and at least three when
    the second is the hex directive. *)
Theorem labeled_line_needs_operand :
  (∀ label loc ast la,
     islabel label = true →
     first_pass_line [label] loc ast la = Raise IndexError) ∧
  (∀ pre label post loc ast la,
     islabel label = true →
     first_pass pre ∅ ∅ = (Exhausted loc, ast, la) →
     first_pass (pre ++ [label] :: post) ∅ ∅ = (Failed IndexError, ast, la)) ∧
  (∀ lines i line label e ast la,
     first_pass lines ∅ ∅ = (e, ast, la) →
     (∀ x, e ≠ Failed x) →
     lines !! i = Some line →
     is_Some (arrival lines i) →
     head line = Some label →
     islabel label = true →
     (2 ≤ length line)%nat ∧
     (line !! 1%nat = Some "hex" → (3 ≤ length line)%nat)).
Proof.
  assert (∀ label loc ast la, islabel label = true →
            first_pass_line [label] loc ast la = Raise IndexError) as Hstep.
  { intros label loc ast la Hlab. unfold first_pass_line. by rewrite Hlab. }
  split; [done|]. split.
  - intros pre label post loc ast la Hlab Hpre. unfold first_pass in *.
    rewrite first_pass_loop_app, Hpre. cbn [first_pass_loop].
    by rewrite Hstep.
  - intros lines i line label e ast la Hrun Hok Hi [loc Harr] Hhead Hlab.
    unfold first_pass in Hrun.
    rewrite <- (take_drop_middle _ _ _ Hi), first_pass_loop_app in Hrun.
    unfold arrival, arrival_from in Harr.
    destruct (first_pass_loop (take i lines) 0 ∅ ∅) as [[ep wp] lp].
    cbn in Harr. destruct ep as [loc'| |]; simplify_eq.
    cbn [first_pass_loop] in Hrun.
    destruct (first_pass_line line loc wp lp) as [r|x] eqn:Hline.
    + by eapply labeled_line_shape.
    + simplify_eq. by destruct (Hok x).
Qed.

Lemma labeled_line_needs_operand_witness :
  first_pass_line ["x,"] 3 ∅ ∅ = Raise IndexError ∧
  first_pass ([["org"; "10"]; ["cle"]] ++ ["x,"] :: [["end"]]) ∅ ∅
    = (Failed IndexError, {[ "000000010000" := "cle" ]}, ∅) ∧
  ((2 ≤ length ["x,"; "hex"; "1f"])%nat ∧
   (["x,"; "hex"; "1f"] !! 1%nat = Some "hex" →
    (3 ≤ length ["x,"; "hex"; "1f"])%nat)).
Proof.
  destruct labeled_line_needs_operand as (Hstep & Hrun & Hshape).
  split; [by apply Hstep|]. split.
  - apply (Hrun [["org"; "10"]; ["cle"]] "x," [["end"]] 17
             {[ "000000010000" := "cle" ]} ∅); [reflexivity|].
    vm_compute. reflexivity.
  - apply (Hshape [["x,"; "hex"; "1f"]; ["end"]] 0%nat _ "x,"
             Stopped {[ "000000000000" := "0000000000011111" ]}
             {[ "x" := "0" ]}); done.
Defined.

(** ** A complete small program *)

(** C5: the lines [org 100], [cle], [end], with empty memory-reference and
    I/O tables and a register-reference table that maps [cle] to
    0111100000000000, assemble to the one-entry mapping from 000100000000
    (location 0x100) to 0111100000000000. *)
Theorem org_cle_end_program :
  assemble_program [["org"; "100"]; ["cle"]; ["end"]]
    ∅ {[ "cle" := "0111100000000000" ]} ∅
  = Ok {[ "000100000000" := "0111100000000000" ]}.
Proof. vm_compute. reflexivity. Qed.

(** ** The addressing-mode bit *)

Lemma lower_ascii_fixed_not_I (c : ascii) :
  Py.lower_ascii c = c → Ascii.eqb c "I" = false.
Proof.
  destruct c as [[] [] [] [] [] [] [] []]; intros H; try reflexivity.
  vm_compute in H. discriminate.
Qed.

(** A lower-case token holds no capital I: on the tokens [read_code]
    produces, the test of the memory-reference branch always fails. *)
Lemma has_char_I_lowercase (s : string) :
  Py.lower s = s → Py.has_char "I" s = false.
Proof.
  induction s as [|c s IH]; [done|].
  cbn [Py.lower Py.has_char]. intros [= Hc Hs].
  by rewrite (lower_ascii_fixed_not_I c Hc), IH.
Qed.

(** The word Pass Two stores for a memory-reference line: the mode bit is
    1 exactly when the raw first token holds a capital I. *)
Lemma memory_reference_word mri la opcode operand rest loc ast code address :
  is_pseudo_instruction opcode = false →
  mri !! Py.lower opcode = Some code →
  la !! operand = Some (Py.str address) →
  second_pass_line mri la (opcode :: operand :: rest) loc ast
  = Ok (Next (loc + 1),
        <[key_of loc :=
            (if Py.has_char "I" opcode then "1" else "0")
            +:+ code +:+ key_of address]> ast).
Proof.
  intros Hps Hmri Hla. unfold second_pass_line.
  rewrite Hps, Hmri. cbn [item lookup list_lookup mbind result_bind].
  unfold getitem. rewrite Hla. cbn [mbind result_bind].
  rewrite format2bin_dec_str, location_key_ok. done.
Qed.

(** C1 (what the code does): with label [x] defined at location 5 and both
    [lda] and [ldai] in the memory-reference table with opcode 010, the
    line [lda x] is assembled to 0 010 000000000101, and so is the line
    [ldai x]: its first bit is 0, not 1.  The test looks for a capital I
    in a token that was converted to lower case. *)
Theorem ldai_is_assembled_as_direct :
  assemble_program
    [["org"; "5"]; ["x,"; "hex"; "0"]; ["lda"; "x"]; ["ldai"; "x"]; ["end"]]
    {[ "lda" := "010"; "ldai" := "010" ]} ∅ ∅
  = Ok {[ "000000000101" := "0000000000000000";
          "000000000110" := "0010000000000101";
          "000000000111" := "0010000000000101" ]}.
Proof. vm_compute. reflexivity. Qed.

(** ** A program without an end directive *)

(** Without a line on which Pass Two stops, [self.__bin] is never bound to
    the address-symbol table: a fresh object returns its empty dict. *)
Lemma assemble_program_exhausted asm mri rri ioi e1 ast1 la1 loc ast2 :
  asm ≠ [] →
  first_pass (rm_comments asm) ∅ ∅ = (e1, ast1, la1) →
  (∀ e, e1 ≠ Failed e) →
  second_pass mri rri ioi la1 (rm_comments asm) ast1 = (Exhausted loc, ast2) →
  assemble_program asm mri rri ioi = Ok ∅.
Proof.
  intros Hne H1 Hok H2. rewrite assemble_program_unfold, H1 by done.
  destruct e1 as [loc1| |e]; [by rewrite H2..|by destruct (Hok e)].
Qed.

Lemma first_pass_loop_keeps k lines loc ast la :
  is_Some (ast !! k) →
  is_Some ((first_pass_loop lines loc ast la).1.2 !! k).
Proof.
  intros Hk. rewrite first_pass_loop_overlay.
  destruct (first_pass_loop lines loc ∅ ∅) as [[e w] l]. cbn.
  apply lookup_union_is_Some. by right.
Qed.

Lemma second_pass_loop_keeps mri la k lines loc ast :
  is_Some (ast !! k) →
  is_Some ((second_pass_loop mri la lines loc ast).2 !! k).
Proof.
  intros Hk. rewrite second_pass_loop_overlay.
  destruct (second_pass_loop mri la lines loc ∅) as [e w]. cbn.
  apply lookup_union_is_Some. by right.
Qed.

(** A run of Pass One that does not raise has written the cell of every
    line it stored. *)
Lemma first_pass_loop_covers lines loc0 j k :
  (∀ x, (first_pass_loop lines loc0 ∅ ∅).1.1 ≠ Failed x) →
  cell_key_from loc0 lines j = Some k →
  is_Some ((first_pass_loop lines loc0 ∅ ∅).1.2 !! k).
Proof.
  revert loc0 j. induction lines as [|line rest IH]; intros loc0 j Hok Hj.
  { unfold cell_key_from in Hj. by rewrite lookup_nil in Hj. }
  pose proof Hok as Hok'.
  apply first_pass_loop_cons_ok in Hok' as (f & w & l & Hline & Hrest).
  cbn [first_pass_loop]. rewrite Hline.
  destruct j as [|j].
  - unfold cell_key_from in Hj. cbn [lookup list_lookup] in Hj.
    destruct (stored line) eqn:Hst; [|done].
    rewrite arrival_from_0 in Hj. cbn in Hj. simplify_eq.
    apply first_pass_line_inv in Hline as [(_ & -> & v & ->)|(? & _)];
      [|congruence].
    apply first_pass_loop_keeps. rewrite lookup_insert_eq. by eexists.
  - rewrite cell_key_from_cons, Hline in Hj.
    destruct f as [loc1|]; [|done].
    rewrite first_pass_loop_overlay.
    specialize (IH loc1 j Hrest Hj).
    destruct (first_pass_loop rest loc1 ∅ ∅) as [[e' w'] l']. cbn in *.
    apply lookup_union_is_Some. by left.
Qed.

(** With an end directive, the returned mapping has an entry for the cell
    of every line that Pass One stored. *)
Lemma end_directive_covers_cells asm mri rri ioi out j k :
  has_end (rm_comments asm) →
  assemble_program asm mri rri ioi = Ok out →
  cell_key (rm_comments asm) j = Some k →
  is_Some (out !! k).
Proof.
  intros Hend Hout Hj.
  apply assemble_program_Ok in Hout
    as (e1 & ast1 & la1 & e2 & ast2 & H1 & Hok1 & H2 & Hok2 & ->).
  pose proof (second_pass_loop_has_end mri la1 (rm_comments asm) 0
                (sweep rri ioi ast1) Hend) as Hne.
  unfold second_pass in H2.
  pose proof (second_pass_loop_keeps mri la1 k (rm_comments asm) 0
                (sweep rri ioi ast1)) as Hkeep.
  rewrite H2 in Hne, Hkeep. cbn in Hne, Hkeep.
  destruct e2 as [loc2| |e]; [by destruct (Hne loc2) | | by destruct (Hok2 e)].
  apply Hkeep. rewrite sweep_lookup, fmap_is_Some.
  pose proof (first_pass_loop_covers (rm_comments asm) 0 j k) as Hcov.
  unfold first_pass in H1. rewrite H1 in Hcov. by apply Hcov.
Qed.

(** C2 (what the code does): for the one-line program [cle], Pass One
    stores the line in the cell of location 0 and Pass Two replaces it by
    the word of [cle] in the address-symbol table of the object, yet
    [assemble] returns the empty mapping: the cell of location 0 is not in
    it. *)
Theorem missing_end_returns_empty_mapping :
  let self := new [["cle"]] ∅ {[ "cle" := "0111100000000000" ]} ∅ in
  cell_key (rm_comments [["cle"]]) 0 = Some "000000000000" ∧
  address_symbol_table (assemble self).1
    = {[ "000000000000" := "0111100000000000" ]} ∧
  (assemble self).2 = Ok ∅.
Proof. vm_compute. done. Qed.

Ltac solve_lowercase :=
  unfold lowercase; cbn;
  repeat first [apply Forall_nil_2 | apply Forall_cons_2]; reflexivity.

Ltac solve_has_end :=
  unfold has_end; cbn;
  repeat first [by apply Exists_cons_hd | apply Exists_cons_tl].

(** ** Unresolved symbols *)

Lemma rm_comments_nonempty asm pre line post :
  rm_comments asm = pre ++ line :: post → asm ≠ [].
Proof. intros H ->. by destruct pre. Qed.

Lemma not_pseudo_not_org_end opcode :
  is_pseudo_instruction opcode = false →
  String.eqb opcode "org" = false ∧ String.eqb opcode "end" = false ∧
  String.eqb opcode "dec" = false.
Proof.
  intros H. repeat split; apply String.eqb_neq; intros ->; discriminate H.
Qed.

(** C4 (amended).  (1) Suppose Pass One raised nothing and Pass Two ran
    through the earlier lines without raising or reaching an end
    directive.  When the next line has a first token that is not one of
    the directives [org], [end], [dec] (in any letter case) and that,
    lower-cased, is a key of the memory-reference table, and its second
    token is not a key of the label table, [assemble] raises a key error
    that carries that second token, whatever lines follow: they are not
    processed.  The exception carries no line position.
    (2) A first token that is not a label, not one of these directives
    and, lower-cased, not a key of the memory-reference table is no error
    in either pass: Pass One stores the raw token in the cell of the line
    and moves to the next location, Pass Two moves to the next location
    and leaves the table as it is.
    (3) In a lower-case program that has an end directive and assembles,
    such a token, when it is a key of neither the register-reference nor
    the I/O table and no other line is stored in the cell of its line, is
    what the returned mapping holds in that cell. *)
Theorem unresolved_operand_raises_key_error :
  (∀ asm mri rri ioi pre opcode operand rest post e1 ast1 la1 loc ast',
     rm_comments asm = pre ++ (opcode :: operand :: rest) :: post →
     first_pass (rm_comments asm) ∅ ∅ = (e1, ast1, la1) →
     (∀ e, e1 ≠ Failed e) →
     second_pass mri rri ioi la1 pre ast1 = (Exhausted loc, ast') →
     is_pseudo_instruction opcode = false →
     is_Some (mri !! Py.lower opcode) →
     la1 !! operand = None →
     assemble_program asm mri rri ioi = Raise (KeyError operand)) ∧
  (∀ mri la opcode rest loc ast1 la1 ast2,
     islabel opcode = false →
     is_pseudo_instruction opcode = false →
     mri !! Py.lower opcode = None →
     first_pass_line (opcode :: rest) loc ast1 la1
     = Ok (Next (loc + 1), <[key_of loc := opcode]> ast1, la1) ∧
     second_pass_line mri la (opcode :: rest) loc ast2
     = Ok (Next (loc + 1), ast2)) ∧
  (∀ asm mri rri ioi out i opcode rest loc,
     lowercase (rm_comments asm) →
     has_end (rm_comments asm) →
     assemble_program asm mri rri ioi = Ok out →
     rm_comments asm !! i = Some (opcode :: rest) →
     islabel opcode = false →
     is_pseudo_instruction opcode = false →
     mri !! opcode = None → rri !! opcode = None → ioi !! opcode = None →
     arrival (rm_comments asm) i = Some loc →
     (∀ j, j ≠ i → cell_key (rm_comments asm) j ≠ Some (key_of loc)) →
     out !! key_of loc = Some opcode).
Proof.
  split; [|split].
  - intros asm mri rri ioi pre opcode operand rest post e1 ast1 la1 loc ast'
      Hsplit H1 Hok Hpre Hps [code Hmri] Hla.
    rewrite assemble_program_unfold by by eapply rm_comments_nonempty.
    rewrite H1. unfold second_pass in *.
    rewrite Hsplit, second_pass_loop_app, Hpre. cbn [second_pass_loop].
    unfold second_pass_line at 1 2.
    rewrite Hps, Hmri. cbn [item lookup list_lookup mbind result_bind].
    unfold getitem. rewrite Hla. cbn [mbind result_bind].
    destruct e1 as [loc1| |e]; [done..|by destruct (Hok e)].
  - intros mri la opcode rest loc ast1 la1 ast2 Hlab Hps Hmri.
    destruct (not_pseudo_not_org_end _ Hps) as (Horg & Hend & _).
    split.
    + unfold first_pass_line.
      by rewrite Hlab, Horg, Hend, location_key_ok.
    + unfold second_pass_line. by rewrite Hps, Hmri.
  - intros asm mri rri ioi out i opcode rest loc
      Hlow Hend Hout Hi Hlab Hps Hmri Hrri Hioi Harr Huniq.
    destruct (not_pseudo_not_org_end _ Hps) as (Horg & Hnend & _).
    assert (Py.lower opcode = opcode) as Hlower.
    { apply list_elem_of_lookup_2 in Hi.
      unfold lowercase in Hlow. rewrite Forall_forall in Hlow.
      specialize (Hlow _ Hi). by apply Forall_cons in Hlow as [? _]. }
    assert (stored (opcode :: rest) = true) as Hst
      by (cbn; by rewrite Hlab, Horg, Hnend).
    destruct (final_cell _ _ _ _ _ _ _ _ Hlow Hend Hout Hi Hst Harr Huniq)
      as (la1 & w1 & l1 & w2 & Hl1 & Hl2 & ->).
    unfold first_pass_line in Hl1.
    rewrite Hlab, Horg, Hnend, location_key_ok in Hl1.
    cbn [mbind result_bind] in Hl1. simplify_eq.
    assert (w2 = ∅) as ->.
    { unfold second_pass_line in Hl2.
      rewrite Hps, Hlower, Hmri in Hl2. by simplify_eq. }
    rewrite (left_id_L ∅ (∪)), lookup_fmap, lookup_insert_eq. cbn.
    unfold sweep_value. by rewrite Hioi, Hrri.
Qed.

Lemma unresolved_operand_raises_key_error_witness :
  assemble_program [["cle"]; ["lda"; "y"]; ["cma"]; ["end"]]
    {[ "lda" := "010" ]} {[ "cle" := "0111100000000000" ]} ∅
  = Raise (KeyError "y") ∧
  (first_pass_line ["foo"; "y"] 4 ∅ ∅
   = Ok (Next (4 + 1), <[key_of 4 := "foo"]> ∅, ∅) ∧
   second_pass_line {[ "lda" := "010" ]} ∅ ["foo"; "y"] 4 ∅
   = Ok (Next (4 + 1), ∅)) ∧
  ({[ "000000000000" := "0111100000000000"; "000000000001" := "foo" ]} : dict)
    !! key_of 1 = Some "foo".
Proof.
  destruct unresolved_operand_raises_key_error as (Hkey & Hstep & Hcell).
  split; [|split].
  - apply (Hkey _ _ _ _ [["cle"]] "lda" "y" [] [["cma"]; ["end"]]
             Stopped {[ "000000000000" := "cle"; "000000000001" := "lda";
                        "000000000010" := "cma" ]} ∅
             1 {[ "000000000000" := "0111100000000000";
                  "000000000001" := "lda"; "000000000010" := "cma" ]});
      try done; vm_compute; eauto.
  - apply Hstep; reflexivity.
  - apply (Hcell [["cla"]; ["foo"; "25"]; ["end"]]
             {[ "lda" := "010" ]} {[ "cla" := "0111100000000000" ]} ∅ _
             1%nat "foo" ["25"] 1).
    + solve_lowercase.
    + solve_has_end.
    + vm_compute. reflexivity.
    + reflexivity.
    + reflexivity.
    + reflexivity.
    + reflexivity.
    + reflexivity.
    + reflexivity.
    + reflexivity.
    + intros [|[|[|j]]] Hj; try done; vm_compute; discriminate.
Defined.

(** C4 as stated fails: a first token that is in none of the three tables
    raises nothing, it is returned as the contents of its cell; and the
    key error for an undefined operand is the same exception whether the
    line that raised it is the first or the second of the program. *)
Lemma unknown_mnemonic_is_not_an_error :
  assemble_program [["foo"]; ["end"]] ∅ ∅ ∅
    = Ok {[ "000000000000" := "foo" ]} ∧
  assemble_program [["lda"; "y"]; ["end"]] {[ "lda" := "010" ]} ∅ ∅
    = Raise (KeyError "y") ∧
  assemble_program [["cle"]; ["lda"; "y"]; ["end"]] {[ "lda" := "010" ]} ∅ ∅
    = Raise (KeyError "y").
Proof. vm_compute. done. Qed.

(** ** The cells of register-reference and I/O lines *)

Lemma reached_line_runs lines e ast la i line loc :
  first_pass lines ∅ ∅ = (e, ast, la) →
  (∀ x, e ≠ Failed x) →
  lines !! i = Some line →
  arrival lines i = Some loc →
  ∃ r, first_pass_line line loc ∅ ∅ = Ok r.
Proof.
  intros Hrun Hok Hi Harr. unfold first_pass in Hrun.
  rewrite <- (take_drop_middle _ _ _ Hi), first_pass_loop_app in Hrun.
  unfold arrival, arrival_from in Harr.
  destruct (first_pass_loop (take i lines) 0 ∅ ∅) as [[ep wp] lp].
  cbn in Harr. destruct ep as [loc'| |]; simplify_eq.
  cbn [first_pass_loop] in Hrun. rewrite first_pass_line_overlay in Hrun.
  destruct (first_pass_line line loc ∅ ∅) as [r|x]; [by eexists|].
  simplify_eq. by destruct (Hok x).
Qed.

(** C6 (amended): take a lower-case program that has an end directive and
    assembles, and in it a line made of one token [m], not the end
    directive, that is in the register-reference table or in the I/O
    table.  If no other line is stored in the cell of that line, the
    returned mapping holds at that cell the word of the I/O table for [m]
    when [m] is in the I/O table, and else the word of the
    register-reference table, unchanged. *)
Theorem bare_register_or_io_cell asm mri rri ioi out i m loc :
  lowercase (rm_comments asm) →
  has_end (rm_comments asm) →
  assemble_program asm mri rri ioi = Ok out →
  rm_comments asm !! i = Some [m] →
  m ≠ "end" →
  arrival (rm_comments asm) i = Some loc →
  (∀ j, j ≠ i → cell_key (rm_comments asm) j ≠ Some (key_of loc)) →
  is_Some (rri !! m) ∨ is_Some (ioi !! m) →
  out !! key_of loc =
  match ioi !! m with
  | Some word => Some word
  | None => rri !! m
  end.
Proof.
  intros Hlow Hend Hout Hi Hm Harr Huniq Htab.
  assert (stored [m] = true) as Hst.
  { apply assemble_program_Ok in Hout as (e1 & ast1 & la1 & _ & _ & H1 & Hok1 & _).
    destruct (reached_line_runs _ _ _ _ _ _ _ H1 Hok1 Hi Harr) as [r Hr].
    unfold first_pass_line in Hr. cbn. apply String.eqb_neq in Hm. rewrite Hm.
    destruct (islabel m); [done|]. by destruct (String.eqb m "org"). }
  destruct (final_cell _ _ _ _ _ _ _ _ Hlow Hend Hout Hi Hst Harr Huniq)
    as (la1 & w1 & l1 & w2 & Hl1 & Hl2 & ->).
  assert (w1 = {[ key_of loc := m ]}) as ->.
  { unfold first_pass_line in Hl1. rewrite location_key_ok in Hl1.
    cbn in Hst. destruct (islabel m); [done|]. cbn in Hst.
    destruct (String.eqb m "org"); [done|].
    destruct (String.eqb m "end"); [done|].
    cbn [mbind result_bind] in Hl1. simplify_eq. apply insert_empty. }
  assert (w2 = ∅) as ->.
  { unfold second_pass_line in Hl2.
    destruct (is_pseudo_instruction m).
    - repeat case_if; by simplify_eq.
    - destruct (mri !! Py.lower m); by simplify_eq. }
  rewrite (left_id_L ∅ (∪)), map_fmap_singleton, lookup_singleton_eq.
  unfold sweep_value.
  destruct (ioi !! m) as [word|]; [done|].
  destruct Htab as [[word ->]|[? [=]]]. done.
Qed.

Lemma bare_register_or_io_cell_witness :
  ({[ "000000000000" := "0111100000000000"; "000000000001" := "1111100000000000";
      "000000000010" := "0000000000000011" ]} : dict) !! key_of 1
  = match ({[ "inp" := "1111100000000000" ]} : dict) !! "inp" with
    | Some word => Some word
    | None => ({[ "cle" := "0111100000000000" ]} : dict) !! "inp"
    end.
Proof.
  apply (bare_register_or_io_cell
           [["cle"; "/clear"; "e"]; ["inp"]; ["x,"; "hex"; "3"]; ["end"]]
           ∅ {[ "cle" := "0111100000000000" ]} {[ "inp" := "1111100000000000" ]}
           _ 1%nat "inp" 1).
  - solve_lowercase.
  - solve_has_end.
  - vm_compute. reflexivity.
  - reflexivity.
  - discriminate.
  - reflexivity.
  - intros [|[|[|[|j]]]] Hj; try done; vm_compute; discriminate.
  - right. vm_compute. eauto.
Defined.

(** C6 as stated fails: a later line can be stored in the cell of the
    register-reference line (here through an origin directive), and the
    mapping then holds the later line; and without an end directive the
    mapping holds no cell at all. *)
Lemma bare_register_cell_overwritten :
  let rri : dict := {[ "cle" := "0111100000000000" ]} in
  (rm_comments [["cle"]; ["org"; "0"]; ["nop"]; ["end"]] !! 0%nat = Some ["cle"] ∧
   cell_key (rm_comments [["cle"]; ["org"; "0"]; ["nop"]; ["end"]]) 0
     = Some (key_of 0) ∧
   ∃ out, assemble_program [["cle"]; ["org"; "0"]; ["nop"]; ["end"]] ∅ rri ∅
            = Ok out ∧
          out !! key_of 0 = Some "nop" ∧ out !! key_of 0 ≠ rri !! "cle") ∧
  (cell_key (rm_comments [["cle"]]) 0 = Some (key_of 0) ∧
   ∃ out, assemble_program [["cle"]] ∅ rri ∅ = Ok out ∧
          out !! key_of 0 = None).
Proof.
  cbn zeta. split.
  - split; [reflexivity|]. split; [reflexivity|].
    eexists. split; [vm_compute; reflexivity|]. split; [reflexivity|].
    vm_compute. discriminate.
  - split; [reflexivity|]. eexists. split; [vm_compute; reflexivity|]. reflexivity.
Qed.

(** ** Binary words *)

Lemma string_length_app (s t : string) :
  String.length (s +:+ t) = (String.length s + String.length t)%nat.
Proof. induction s as [|c s IH]; [done|]. simpl. by f_equal. Qed.

Lemma zeros_length (n : nat) : String.length (Py.zeros n) = n.
Proof. induction n as [|n IH]; [done|]. simpl. by f_equal. Qed.

Lemma binary_value_from_app (s t : string) (acc : Z) :
  binary_value_from acc (s +:+ t) = binary_value_from (binary_value_from acc s) t.
Proof. revert acc. induction s as [|c s IH]; intros acc; cbn; [done|]. apply IH. Qed.

Lemma binary_value_from_zeros (n : nat) (s : string) :
  binary_value_from 0 (Py.zeros n +:+ s) = binary_value_from 0 s.
Proof. induction n as [|n IH]; cbn; [done|]. exact IH. Qed.

Lemma bits_value (p : positive) : binary_value (Py.bits p) = Zpos p.
Proof.
  unfold binary_value. induction p as [p IH|p IH|]; cbn [Py.bits].
  - rewrite binary_value_from_app, IH. cbn. lia.
  - rewrite binary_value_from_app, IH. cbn. lia.
  - done.
Qed.

Lemma bits_head (p : positive) : ∃ t, Py.bits p = String "1" t.
Proof.
  induction p as [p [t IH]|p [t IH]|]; cbn [Py.bits];
    [rewrite IH; by eexists..|by eexists].
Qed.

Lemma bits_length (p : positive) (n : nat) :
  Zpos p < 2 ^ Z.of_nat n → (String.length (Py.bits p) ≤ n)%nat.
Proof.
  revert n. induction p as [p IH|p IH|]; intros n Hn; cbn [Py.bits].
  - destruct n as [|n]; [cbn in Hn; lia|].
    rewrite Nat2Z.inj_succ, Z.pow_succ_r in Hn by lia.
    rewrite string_length_app. cbn. specialize (IH n). lia.
  - destruct n as [|n]; [cbn in Hn; lia|].
    rewrite Nat2Z.inj_succ, Z.pow_succ_r in Hn by lia.
    rewrite string_length_app. cbn. specialize (IH n). lia.
  - destruct n as [|n]; [cbn in Hn; lia|]. cbn. lia.
Qed.

(** A number that fits in [w] bits is rendered on exactly [w] binary
    digits, and these digits stand for the number. *)
Lemma zfill_format_b (w : nat) (n : Z) :
  (0 < w)%nat → 0 ≤ n < 2 ^ Z.of_nat w →
  String.length (Py.zfill w (Py.format_b n)) = w ∧
  binary_value (Py.zfill w (Py.format_b n)) = n.
Proof.
  intros Hw [Hn0 Hn]. destruct n as [|p|p]; [| |lia].
  - unfold Py.zfill. cbn. rewrite string_length_app, zeros_length. cbn.
    split; [lia|]. unfold binary_value. by rewrite binary_value_from_zeros.
  - cbn [Py.format_b]. pose proof (bits_length p w Hn) as Hlen.
    pose proof (bits_value p) as Hval.
    destruct (bits_head p) as [t Ht]. unfold Py.zfill.
    rewrite Ht in *. cbn [Ascii.eqb Bool.eqb orb].
    rewrite string_length_app, zeros_length.
    split; [lia|]. unfold binary_value in *. by rewrite binary_value_from_zeros.
Qed.

(** The key of a location between 0 and 4095 is its 12-bit rendering. *)
Lemma key_of_12_bits (loc : Z) :
  0 ≤ loc < 4096 →
  String.length (key_of loc) = 12%nat ∧ binary_value (key_of loc) = loc.
Proof.
  intros Hloc. apply zfill_format_b; [lia|].
  change (2 ^ Z.of_nat 12) with 4096. lia.
Qed.

(** ** The cells of labeled lines *)

(** Pass Two on a labeled line whose label token is not a key of the
    memory-reference table: nothing is encoded, the counter moves on. *)
Lemma second_pass_line_label mri la label rest loc ast :
  islabel label = true →
  mri !! Py.lower label = None →
  second_pass_line mri la (label :: rest) loc ast = Ok (Next (loc + 1), ast).
Proof.
  intros Hlab Hmri. unfold second_pass_line.
  by rewrite (islabel_not_pseudo _ Hlab), Hmri.
Qed.

(** C3 (amended): take a lower-case program that has an end directive and
    assembles, and in it a line made of a label, then a token [m] of the
    memory-reference table other than the hex directive.  If no other
    line is stored in the cell of that line, [m] is in neither the
    register-reference nor the I/O table, and the label token is not
    itself a key of the memory-reference table, then the returned mapping
    holds the raw token [m] at that cell, and Pass Two leaves the table
    as it is on that line. *)
Theorem labeled_memory_reference_stays_raw
    asm mri rri ioi out i label m rest loc :
  lowercase (rm_comments asm) →
  has_end (rm_comments asm) →
  assemble_program asm mri rri ioi = Ok out →
  rm_comments asm !! i = Some (label :: m :: rest) →
  islabel label = true →
  m ≠ "hex" →
  is_Some (mri !! m) →
  arrival (rm_comments asm) i = Some loc →
  (∀ j, j ≠ i → cell_key (rm_comments asm) j ≠ Some (key_of loc)) →
  rri !! m = None →
  ioi !! m = None →
  mri !! label = None →
  out !! key_of loc = Some m ∧
  ∀ la loc' ast,
    second_pass_line mri la (label :: m :: rest) loc' ast
    = Ok (Next (loc' + 1), ast).
Proof.
  intros Hlow Hend Hout Hi Hlab Hm _ Harr Huniq Hrri Hioi Hmri.
  assert (Py.lower label = label) as Hlower.
  { apply list_elem_of_lookup_2 in Hi.
    unfold lowercase in Hlow. rewrite Forall_forall in Hlow.
    specialize (Hlow _ Hi). by apply Forall_cons in Hlow as [? _]. }
  assert (∀ la loc' ast,
            second_pass_line mri la (label :: m :: rest) loc' ast
            = Ok (Next (loc' + 1), ast)) as Hstep.
  { intros. apply second_pass_line_label; [done|]. by rewrite Hlower. }
  split; [|done].
  assert (stored (label :: m :: rest) = true) as Hst by (cbn; by rewrite Hlab).
  destruct (final_cell _ _ _ _ _ _ _ _ Hlow Hend Hout Hi Hst Harr Huniq)
    as (la1 & w1 & l1 & w2 & Hl1 & Hl2 & ->).
  rewrite Hstep in Hl2.
  unfold first_pass_line in Hl1. rewrite Hlab, location_key_ok in Hl1.
  apply String.eqb_neq in Hm.
  cbn [item lookup list_lookup mbind result_bind] in Hl1.
  rewrite Hm in Hl1. cbn [negb mbind result_bind] in Hl1. simplify_eq.
  rewrite (left_id_L ∅ (∪)), lookup_fmap, lookup_insert_eq. cbn.
  unfold sweep_value. by rewrite Hioi, Hrri.
Qed.

Lemma labeled_memory_reference_stays_raw_witness :
  ({[ "000000000000" := "lda"; "000000000001" := "0000000000000011" ]} : dict)
    !! key_of 0 = Some "lda" ∧
  ∀ la loc' ast,
    second_pass_line {[ "lda" := "010" ]} la ["top,"; "lda"; "x"] loc' ast
    = Ok (Next (loc' + 1), ast).
Proof.
  apply (labeled_memory_reference_stays_raw
           [["top,"; "lda"; "x"]; ["x,"; "hex"; "3"]; ["end"]]
           {[ "lda" := "010" ]} ∅ ∅ _ 0%nat "top," "lda" ["x"] 0).
  - solve_lowercase.
  - solve_has_end.
  - vm_compute. reflexivity.
  - reflexivity.
  - reflexivity.
  - discriminate.
  - vm_compute. eauto.
  - reflexivity.
  - intros [|[|[|j]]] Hj; try done; vm_compute; discriminate.
  - reflexivity.
  - reflexivity.
  - reflexivity.
Defined.

(** C3 as stated fails: the cell of the labeled line can be taken by a
    later line; a token that is also in the register-reference table is
    replaced by the sweep; a label token that is itself a key of the
    memory-reference table sends the line through the memory-reference
    branch. *)
Lemma labeled_memory_reference_not_always_raw :
  let mri : dict := {[ "lda" := "010" ]} in
  (cell_key [["top,"; "lda"; "x"]; ["org"; "0"]; ["x,"; "hex"; "3"]; ["end"]] 0
     = Some (key_of 0) ∧
   ∃ out, assemble_program
            [["top,"; "lda"; "x"]; ["org"; "0"]; ["x,"; "hex"; "3"]; ["end"]]
            mri ∅ ∅ = Ok out ∧
          out !! key_of 0 = Some "0000000000000011") ∧
  (∃ out, assemble_program [["top,"; "lda"; "x"]; ["end"]]
            mri {[ "lda" := "0111000000000000" ]} ∅ = Ok out ∧
          out !! key_of 0 = Some "0111000000000000") ∧
  (∃ out, assemble_program [["lda,"; "hex"; "0"]; ["top,"; "lda"]; ["end"]]
            (<[ "top," := "111" ]> mri) ∅ ∅ = Ok out ∧
          out !! key_of 1 = Some "0111000000000000").
Proof.
  cbn zeta. repeat split; try reflexivity;
    eexists; (split; [vm_compute; reflexivity | reflexivity]).
Qed.

(** C7 (amended): take a lower-case program that has an end directive and
    assembles, and in it a line made of a label, the hex directive and a
    hexadecimal literal of value [v].  If no other line is stored in the
    cell of that line, the binary rendering of [v] zero-filled to 16
    characters is a key of neither the register-reference nor the I/O
    table, and the label token is not a key of the memory-reference
    table, then the returned mapping holds that rendering at the cell,
    whatever else the three tables hold.  When [v] is between 0 and
    0xFFFF the rendering is 16 binary digits that stand for [v]. *)
Theorem hex_literal_cell asm mri rri ioi out i label operand rest v loc :
  lowercase (rm_comments asm) →
  has_end (rm_comments asm) →
  assemble_program asm mri rri ioi = Ok out →
  rm_comments asm !! i = Some (label :: "hex" :: operand :: rest) →
  islabel label = true →
  Py.int16 operand = Ok v →
  arrival (rm_comments asm) i = Some loc →
  (∀ j, j ≠ i → cell_key (rm_comments asm) j ≠ Some (key_of loc)) →
  rri !! Py.zfill 16 (Py.format_b v) = None →
  ioi !! Py.zfill 16 (Py.format_b v) = None →
  mri !! label = None →
  out !! key_of loc = Some (Py.zfill 16 (Py.format_b v)) ∧
  (0 ≤ v < 65536 →
   String.length (Py.zfill 16 (Py.format_b v)) = 16%nat ∧
   binary_value (Py.zfill 16 (Py.format_b v)) = v).
Proof.
  intros Hlow Hend Hout Hi Hlab Hv Harr Huniq Hrri Hioi Hmri.
  split;
    [|intros Hrange; apply zfill_format_b; [lia|];
      change (2 ^ Z.of_nat 16) with 65536; lia].
  assert (Py.lower label = label) as Hlower.
  { apply list_elem_of_lookup_2 in Hi.
    unfold lowercase in Hlow. rewrite Forall_forall in Hlow.
    specialize (Hlow _ Hi). by apply Forall_cons in Hlow as [? _]. }
  assert (stored (label :: "hex" :: operand :: rest) = true) as Hst
    by (cbn; by rewrite Hlab).
  destruct (final_cell _ _ _ _ _ _ _ _ Hlow Hend Hout Hi Hst Harr Huniq)
    as (la1 & w1 & l1 & w2 & Hl1 & Hl2 & ->).
  rewrite <- Hlower in Hmri.
  rewrite (second_pass_line_label _ _ _ _ _ _ Hlab Hmri) in Hl2.
  unfold first_pass_line in Hl1.
  rewrite Hlab, location_key_ok in Hl1.
  cbn [item lookup list_lookup mbind result_bind String.eqb Ascii.eqb
       Bool.eqb negb] in Hl1.
  rewrite (format2bin_hex _ _ _ Hv) in Hl1.
  cbn [mbind result_bind] in Hl1. simplify_eq.
  rewrite (left_id_L ∅ (∪)), lookup_fmap, lookup_insert_eq. cbn.
  unfold sweep_value. by rewrite Hioi, Hrri.
Qed.

Lemma hex_literal_cell_witness :
  ({[ "000000000000" := "0111100000000000";
      "000000000001" := "0000000000011111" ]} : dict) !! key_of 1
    = Some (Py.zfill 16 (Py.format_b 31)) ∧
  (0 ≤ 31 < 65536 →
   String.length (Py.zfill 16 (Py.format_b 31)) = 16%nat ∧
   binary_value (Py.zfill 16 (Py.format_b 31)) = 31).
Proof.
  apply (hex_literal_cell
           [["cle"]; ["x,"; "hex"; "1f"; "/data"]; ["end"]]
           {[ "lda" := "010" ]} {[ "cle" := "0111100000000000" ]} ∅
           _ 1%nat "x," "1f" [] 31 1).
  - solve_lowercase.
  - solve_has_end.
  - vm_compute. reflexivity.
  - reflexivity.
  - reflexivity.
  - reflexivity.
  - reflexivity.
  - intros [|[|[|j]]] Hj; try done; vm_compute; discriminate.
  - reflexivity.
  - reflexivity.
  - reflexivity.
Defined.

(** C7 as stated fails: the sweep also replaces a hex word that happens to
    be a key of the register-reference table, so the cell depends on that
    table; a label token that is a key of the memory-reference table makes
    Pass Two overwrite the cell; an operand above 0xFFFF is rendered on
    more than 16 digits; and a later line can take the cell. *)
Lemma hex_literal_cell_depends_on_tables :
  (assemble_program [["x,"; "hex"; "5"]; ["end"]] ∅ ∅ ∅
     = Ok {[ "000000000000" := "0000000000000101" ]} ∧
   assemble_program [["x,"; "hex"; "5"]; ["end"]]
     ∅ {[ "0000000000000101" := "0111100000000000" ]} ∅
     = Ok {[ "000000000000" := "0111100000000000" ]}) ∧
  assemble_program [["hex,"; "hex"; "0"]; ["x,"; "hex"; "5"]; ["end"]]
    {[ "x," := "010" ]} ∅ ∅
    = Ok {[ "000000000000" := "0000000000000000";
            "000000000001" := "0010000000000000" ]} ∧
  assemble_program [["x,"; "hex"; "1ffff"]; ["end"]] ∅ ∅ ∅
    = Ok {[ "000000000000" := "11111111111111111" ]} ∧
  assemble_program [["x,"; "hex"; "5"]; ["org"; "0"]; ["nop"]; ["end"]] ∅ ∅ ∅
    = Ok {[ "000000000000" := "nop" ]}.
Proof. vm_compute. done. Qed.

(** ** Assembling twice with the same object *)

(** [assemble] on any object with a loaded program: the object it leaves
    and its result, by cases on how the two passes end. *)
Lemma assemble_unfold (self : Assembler) :
  asm self ≠ [] →
  assemble self =
  let lines := rm_comments (asm self) in
  match first_pass lines (address_symbol_table self) (label_addresses self) with
  | (Failed e, ast1, la1) =>
      (set_state self lines ast1 la1 (bin_is_table self), Raise e)
  | (_, ast1, la1) =>
      match second_pass (mri_table self) (rri_table self) (ioi_table self)
              la1 lines ast1 with
      | (Failed e, ast2) =>
          (set_state self lines ast2 la1 (bin_is_table self), Raise e)
      | (Stopped, ast2) => (set_state self lines ast2 la1 true, Ok ast2)
      | (Exhausted _, ast2) =>
          (set_state self lines ast2 la1 (bin_is_table self),
           Ok (if bin_is_table self then ast2 else ∅))
      end
  end.
Proof.
  intros Hne. unfold assemble.
  destruct (asm self) as [|l0 asm0] eqn:Hasm; [done|].
  cbn zeta.
  destruct (first_pass (rm_comments (l0 :: asm0)) (address_symbol_table self)
              (label_addresses self)) as [[e1 ast1] la1].
  destruct e1 as [loc1| |e]; [| |done];
    destruct (second_pass (mri_table self) (rri_table self) (ioi_table self)
                la1 (rm_comments (l0 :: asm0)) ast1) as [[loc2| |e] ast2]; done.
Qed.

Lemma rm_comments_eq_nil asm : rm_comments asm = [] → asm = [].
Proof. by destruct asm. Qed.

(** A second sweep and a second Pass Two over the mapping of a first run
    rebuild that mapping. *)
Lemma resweep (f : string → string) (W M : dict) :
  M ∪ (f <$> (W ∪ (M ∪ (f <$> W)))) = M ∪ (f <$> W).
Proof.
  apply map_eq. intros k.
  rewrite !lookup_union, !lookup_fmap, !lookup_union, !lookup_fmap.
  destruct (M !! k) as [x|], (W !! k) as [y|]; done.
Qed.

(** C9: assembling again with the same object returns what the first call
    returned, the same mapping or the same exception, for every program
    and every three tables.  The second call starts from the tables the
    first call left in the object, and from [self.__bin] bound to the
    address-symbol table when the first call reached the end directive. *)
Theorem assemble_twice_same_result (program : list (list string)) (mri rri ioi : dict) :
  (assemble (assemble (new program mri rri ioi)).1).2
  = (assemble (new program mri rri ioi)).2.
Proof.
  destruct (decide (program = [])) as [->|Hne]; [done|].
  assert (rm_comments program ≠ []) as Hne'
    by (intros H; by apply rm_comments_eq_nil in H).
  rewrite (assemble_unfold (new program mri rri ioi)) by done.
  cbn [asm address_symbol_table label_addresses bin_is_table
       mri_table rri_table ioi_table new]. cbn zeta.
  set (lines := rm_comments program) in *.
  destruct (first_pass lines ∅ ∅) as [[e1 W] L] eqn:H1.
  assert (∀ ast la, first_pass lines ast la = (e1, W ∪ ast, L ∪ la)) as Hfirst.
  { intros ast la. unfold first_pass in *.
    by rewrite first_pass_loop_overlay, H1. }
  destruct (second_pass_loop mri L lines 0 ∅) as [e2 M] eqn:H2.
  assert (∀ ast, second_pass mri rri ioi L lines ast
                 = (e2, M ∪ (sweep_value rri ioi <$> ast))) as Hsecond.
  { intros ast. unfold second_pass.
    by rewrite second_pass_loop_overlay, H2, sweep_fmap. }
  assert (∀ self', asm self' = lines →
            label_addresses self' = L →
            mri_table self' = mri → rri_table self' = rri →
            ioi_table self' = ioi →
            (assemble self').2 =
            match e1 with
            | Failed e => Raise e
            | _ =>
                match e2 with
                | Failed e => Raise e
                | Stopped =>
                    Ok (M ∪ (sweep_value rri ioi
                               <$> (W ∪ address_symbol_table self')))
                | Exhausted _ =>
                    Ok (if bin_is_table self'
                        then M ∪ (sweep_value rri ioi
                                    <$> (W ∪ address_symbol_table self'))
                        else ∅)
                end
            end) as Hagain.
  { intros self' Hasm Hla Hmri Hrri Hioi.
    rewrite assemble_unfold by (by rewrite Hasm).
    cbn zeta. rewrite Hasm, Hla, Hmri, Hrri, Hioi.
    replace (rm_comments lines) with lines
      by (unfold lines; by rewrite rm_comments_idemp).
    rewrite Hfirst, (map_union_idemp L).
    destruct e1 as [loc1| |e]; [| |done];
      rewrite Hsecond; by destruct e2 as [loc2| |e]. }
  destruct e1 as [loc1| |e].
  - rewrite Hsecond.
    destruct e2 as [loc2| |e]; (rewrite Hagain; [|done..]); cbn; try done.
    by rewrite resweep.
  - rewrite Hsecond.
    destruct e2 as [loc2| |e]; (rewrite Hagain; [|done..]); cbn; try done.
    by rewrite resweep.
  - by rewrite Hagain.
Qed.

(** ** The tokens of a file *)

Lemma lower_ascii_idemp (c : ascii) :
  Py.lower_ascii (Py.lower_ascii c) = Py.lower_ascii c.
Proof. destruct c as [[] [] [] [] [] [] [] []]; reflexivity. Qed.

Lemma lower_idemp (s : string) : Py.lower (Py.lower s) = Py.lower s.
Proof.
  induction s as [|c s IH]; [done|].
  cbn [Py.lower]. by rewrite lower_ascii_idemp, IH.
Qed.


Lemma all_chars_lower (s : string) : all_chars lower_fixed (Py.lower s) = true.
Proof.
  induction s as [|c s IH]; [done|].
  cbn [Py.lower all_chars]. rewrite IH. unfold lower_fixed.
  rewrite lower_ascii_idemp. by rewrite Ascii.eqb_refl.
Qed.

Lemma all_chars_lower_fixed (s : string) :
  all_chars lower_fixed s = true → Py.lower s = s.
Proof.
  induction s as [|c s IH]; [done|].
  cbn [all_chars Py.lower]. intros [Hc Hs]%andb_prop.
  apply Ascii.eqb_eq in Hc. by rewrite Hc, IH.
Qed.

Lemma split_cons_inv (c : ascii) (s : string) :
  Text.is_space c = false →
  ∃ tok rest, Text.split (String c s) = String c tok :: rest ∧
    ((tok = EmptyString ∧ rest = Text.split s) ∨
     Text.split s = tok :: rest).
Proof.
  intros Hc. cbn [Text.split]. rewrite Hc.
  destruct s as [|d s']; [by eexists _, _; eauto|].
  destruct (Text.is_space d) eqn:Hd; [by eexists _, _; eauto|].
  destruct (Text.split (String d s')) as [|tok rest]; by eexists _, _; eauto.
Qed.

(** The tokens of [split] are made of characters of the string. *)
Lemma split_all_chars (P : ascii → bool) (s : string) :
  all_chars P s = true →
  Forall (λ tok, all_chars P tok = true) (Text.split s).
Proof.
  induction s as [|c s IH]; [by constructor|].
  cbn [all_chars]. intros [Hc Hs]%andb_prop. specialize (IH Hs).
  destruct (Text.is_space c) eqn:Hsp.
  { cbn [Text.split]. by rewrite Hsp. }
  destruct (split_cons_inv c s Hsp) as (tok & rest & -> & [[-> ->]|Heq]).
  - constructor; [|done]. cbn. by rewrite Hc.
  - rewrite Heq in IH. apply Forall_cons in IH as [Htok Hrest].
    constructor; [|done]. cbn [all_chars]. by rewrite Hc, Htok.
Qed.

(** The tokens of [split] are not empty and hold no white space. *)
Lemma split_tokens (s : string) :
  Forall (λ tok, tok ≠ EmptyString ∧
                 all_chars (λ c, negb (Text.is_space c)) tok = true)
    (Text.split s).
Proof.
  induction s as [|c s IH]; [by constructor|].
  destruct (Text.is_space c) eqn:Hsp.
  { cbn [Text.split]. by rewrite Hsp. }
  destruct (split_cons_inv c s Hsp) as (tok & rest & -> & [[-> ->]|Heq]).
  - constructor; [|done]. split; [done|]. cbn. by rewrite Hsp.
  - rewrite Heq in IH. apply Forall_cons in IH as [[_ Htok] Hrest].
    constructor; [|done]. split; [done|]. cbn [all_chars]. by rewrite Hsp, Htok.
Qed.

Lemma tokens_lowercase (s : string) :
  Forall (λ tok, Py.lower tok = tok) (tokens s).
Proof.
  unfold tokens.
  eapply Forall_impl; [apply split_all_chars, all_chars_lower|].
  intros tok. apply all_chars_lower_fixed.
Qed.

Lemma rm_comments_line_Forall (P : string → Prop) (line : list string) :
  Forall P line → Forall P (rm_comments_line line).
Proof.
  induction 1 as [|tok rest Htok Hrest IH]; [by constructor|].
  cbn. destruct (Py.startswith tok "/"); by constructor.
Qed.

Lemma rm_comments_lowercase (asm : list (list string)) :
  lowercase asm → lowercase (rm_comments asm).
Proof.
  unfold lowercase, rm_comments. intros H.
  apply Forall_fmap. eapply Forall_impl; [exact H|].
  intros line. apply rm_comments_line_Forall.
Qed.

(** X1: the program that [read_code] loads has one line of tokens per line
    of the file; every token is in lower case, is not empty and holds no
    white space; the program is still in lower case once the comments are
    removed, which is what the properties of the two passes ask for. *)
Theorem read_code_tokens (path file : string) (readlines : list string)
    (program : list (list string)) :
  read_code path readlines = Ok (file, program) →
  length program = length readlines ∧
  lowercase program ∧
  lowercase (rm_comments program) ∧
  Forall (Forall (λ tok, tok ≠ EmptyString ∧
                         all_chars (λ c, negb (Text.is_space c)) tok = true))
    program.
Proof.
  unfold read_code. destruct (_ || _); [|done]. intros [= <- <-].
  assert (lowercase (map tokens readlines)) as Hlow.
  { unfold lowercase. apply Forall_fmap, Forall_forall.
    intros s _. apply tokens_lowercase. }
  split; [by rewrite length_map|]. split; [done|].
  split; [by apply rm_comments_lowercase|].
  apply Forall_fmap, Forall_forall. intros s _. apply split_tokens.
Qed.

Lemma read_code_tokens_witness :
  length [["org"; "100"]; ["x,"; "hex"; "1f"; "/data"]; []; ["end"]]
    = length ["ORG 100"; "  X,  HEX 1F /data  "; "   "; "END"] ∧
  lowercase [["org"; "100"]; ["x,"; "hex"; "1f"; "/data"]; []; ["end"]] ∧
  lowercase
    (rm_comments [["org"; "100"]; ["x,"; "hex"; "1f"; "/data"]; []; ["end"]]) ∧
  Forall (Forall (λ tok, tok ≠ EmptyString ∧
                         all_chars (λ c, negb (Text.is_space c)) tok = true))
    [["org"; "100"]; ["x,"; "hex"; "1f"; "/data"]; []; ["end"]].
Proof.
  apply (read_code_tokens "programs/demo.asm" "demo.asm"
           ["ORG 100"; "  X,  HEX 1F /data  "; "   "; "END"]).
  vm_compute. reflexivity.
Defined.

(** ** Loading an instruction table *)

Lemma table_of_rows_cons row rows acc :
  table_of_rows (row :: rows) acc =
  match row with
  | [opcode; binary] => table_of_rows rows (<[opcode := binary]> acc)
  | _ :: _ :: _ :: _ => Raise (ValueError "too many values to unpack")
  | _ => Raise (ValueError "not enough values to unpack")
  end.
Proof. by destruct row as [|a [|b [|c r]]]. Qed.

Lemma table_of_rows_Ok rows acc table :
  table_of_rows rows acc = Ok table →
  Forall (λ row, length row = 2%nat) rows.
Proof.
  revert acc. induction rows as [|row rows IH]; intros acc H; [by constructor|].
  rewrite table_of_rows_cons in H.
  destruct row as [|a [|b [|c r]]]; try done.
  constructor; [done|]. by eapply IH.
Qed.

Lemma table_of_rows_total rows acc :
  Forall (λ row, length row = 2%nat) rows →
  ∃ table, table_of_rows rows acc = Ok table.
Proof.
  intros H. revert acc. induction H as [|row rows Hrow _ IH]; intros acc.
  { by eexists. }
  destruct row as [|a [|b [|c r]]]; try done. cbn. apply IH.
Qed.

Lemma table_of_rows_Raise rows acc e :
  table_of_rows rows acc = Raise e → ∃ msg, e = ValueError msg.
Proof.
  revert acc. induction rows as [|row rows IH]; intros acc H; [done|].
  rewrite table_of_rows_cons in H.
  destruct row as [|a [|b [|c r]]]; simplify_eq; eauto.
Qed.

Lemma table_of_rows_other rows acc table k :
  table_of_rows rows acc = Ok table →
  Forall (λ row, head row ≠ Some k) rows →
  table !! k = acc !! k.
Proof.
  revert acc. induction rows as [|row rows IH]; intros acc H Hk.
  { cbn in H. by simplify_eq. }
  apply Forall_cons in Hk as [Hrow Hk].
  rewrite table_of_rows_cons in H.
  destruct row as [|a [|b [|c r]]]; try done.
  rewrite (IH _ H Hk). apply lookup_insert_ne. cbn in Hrow. congruence.
Qed.

Lemma table_of_rows_last pre opcode binary post acc table :
  table_of_rows (pre ++ [opcode; binary] :: post) acc = Ok table →
  Forall (λ row, head row ≠ Some opcode) post →
  table !! opcode = Some binary.
Proof.
  revert acc. induction pre as [|row pre IH]; intros acc H Hpost.
  - cbn in H. rewrite (table_of_rows_other _ _ _ _ H Hpost).
    apply lookup_insert_eq.
  - cbn [app] in H. rewrite table_of_rows_cons in H.
    destruct row as [|a [|b [|c r]]]; try done. by eapply IH.
Qed.

Lemma table_of_rows_from rows acc table k v :
  table_of_rows rows acc = Ok table →
  table !! k = Some v →
  [k; v] ∈ rows ∨ acc !! k = Some v.
Proof.
  revert acc. induction rows as [|row rows IH]; intros acc H Hk.
  { cbn in H. simplify_eq. by right. }
  rewrite table_of_rows_cons in H.
  destruct row as [|a [|b [|c r]]]; try done.
  destruct (IH _ H Hk) as [Hin|Hacc].
  - left. by apply list_elem_of_further.
  - destruct (decide (a = k)) as [->|Hne].
    + rewrite lookup_insert_eq in Hacc. simplify_eq. left. apply list_elem_of_here.
    + rewrite lookup_insert_ne in Hacc by done. by right.
Qed.

(** X2: [__load_table] returns a table exactly when every line of the file
    has two tokens; a blank line, a line with one token or with three
    makes it raise a [ValueError].  In the table every key is in lower
    case and every entry comes from a line of the file, and the last line
    for a mnemonic is the one that counts. *)
Theorem load_table_rows (readlines : list string) :
  let rows := map tokens readlines in
  match load_table readlines with
  | Ok table =>
      Forall (λ row, length row = 2%nat) rows ∧
      (∀ k v, table !! k = Some v →
              [k; v] ∈ rows ∧ Py.lower k = k ∧ Py.lower v = v) ∧
      (∀ pre opcode binary post,
         rows = pre ++ [opcode; binary] :: post →
         Forall (λ row, head row ≠ Some opcode) post →
         table !! opcode = Some binary)
  | Raise e =>
      (∃ msg, e = ValueError msg) ∧
      ¬ Forall (λ row, length row = 2%nat) rows
  end.
Proof.
  cbn zeta. unfold load_table.
  destruct (table_of_rows (map tokens readlines) ∅) as [table|e] eqn:H.
  - split; [by eapply table_of_rows_Ok|]. split.
    + intros k v Hk.
      destruct (table_of_rows_from _ _ _ _ _ H Hk) as [Hin|Hempty]; [|done].
      split; [done|].
      apply list_elem_of_fmap in Hin as (s & Hrow & _).
      pose proof (tokens_lowercase s) as Hlow. rewrite <- Hrow in Hlow.
      apply Forall_cons in Hlow as [Hk' Hlow].
      by apply Forall_cons in Hlow as [Hv' _].
    + intros pre opcode binary post Hrows Hpost.
      rewrite Hrows in H. by eapply table_of_rows_last.
  - split; [by eapply table_of_rows_Raise|].
    intros Hall. destruct (table_of_rows_total _ ∅ Hall) as [table Ht].
    congruence.
Qed.

(** ** Binary renderings never lose the number *)

Lemma zfill_length (w : nat) (s : string) :
  String.length (Py.zfill w s) = (w `max` String.length s)%nat.
Proof.
  unfold Py.zfill. destruct s as [|c s']; cbn [String.length].
  - rewrite zeros_length. lia.
  - destruct (Ascii.eqb c "-" || Ascii.eqb c "+"); cbn [String.length];
      rewrite string_length_app, zeros_length; cbn [String.length]; lia.
Qed.

Lemma zfill_format_b_value (w : nat) (n : Z) :
  binary_value (Py.zfill w (Py.format_b n)) = Z.abs n.
Proof.
  unfold binary_value. destruct n as [|p|p]; cbn [Py.format_b Z.abs].
  - unfold Py.zfill. cbn. by rewrite binary_value_from_zeros.
  - destruct (bits_head p) as [t Ht]. pose proof (bits_value p) as Hval.
    unfold Py.zfill, binary_value in *. rewrite Ht in *.
    cbn [Ascii.eqb Bool.eqb orb]. by rewrite binary_value_from_zeros.
  - pose proof (bits_value p) as Hval. unfold Py.zfill, binary_value in *.
    cbn [Ascii.eqb Bool.eqb orb binary_value_from].
    change (2 * 0 + 0) with 0. by rewrite binary_value_from_zeros.
Qed.

Lemma startswith_zeros_app (k : nat) (s : string) :
  Py.startswith s "-" = false → Py.startswith (Py.zeros k +:+ s) "-" = false.
Proof. by destruct k. Qed.

Lemma zfill_format_b_sign (w : nat) (n : Z) :
  Py.startswith (Py.zfill w (Py.format_b n)) "-" = (n <? 0).
Proof.
  destruct n as [|p|p]; cbn [Py.format_b].
  - unfold Py.zfill. cbn [Ascii.eqb Bool.eqb orb]. by apply startswith_zeros_app.
  - destruct (bits_head p) as [t Ht]. unfold Py.zfill. rewrite Ht.
    cbn [Ascii.eqb Bool.eqb orb]. by apply startswith_zeros_app.
  - done.
Qed.

Lemma zfill_format_b_inj (w : nat) (a b : Z) :
  Py.zfill w (Py.format_b a) = Py.zfill w (Py.format_b b) → a = b.
Proof.
  intros H.
  pose proof (zfill_format_b_value w a) as Ha.
  pose proof (zfill_format_b_sign w a) as Hsa.
  rewrite H, zfill_format_b_value in Ha. rewrite H, zfill_format_b_sign in Hsa.
  destruct (Z.ltb_spec a 0), (Z.ltb_spec b 0); try done; lia.
Qed.

(** X3: [__format2bin] never truncates.  When it returns, the number was
    read in the given format, the binary digits of the result stand for
    its absolute value, the result starts with a minus sign exactly when
    the number is negative, and the result has at least [format_bits]
    characters: exactly that many when the number fits, more when it does
    not. *)
Theorem format2bin_never_truncates
    (num numformat : string) (format_bits : nat) (s : string) :
  format2bin num numformat format_bits = Ok s →
  ∃ n,
    ((numformat = "dec" ∧ Py.int10 num = Ok n) ∨
     (numformat = "hex" ∧ Py.int16 num = Ok n)) ∧
    binary_value s = Z.abs n ∧
    Py.startswith s "-" = (n <? 0) ∧
    String.length s
      = (format_bits `max` String.length (Py.format_b n))%nat ∧
    ((0 < format_bits)%nat → 0 ≤ n < 2 ^ Z.of_nat format_bits →
     String.length s = format_bits).
Proof.
  unfold format2bin. intros H.
  assert (∃ n,
            ((numformat = "dec" ∧ Py.int10 num = Ok n) ∨
             (numformat = "hex" ∧ Py.int16 num = Ok n)) ∧
            s = Py.zfill format_bits (Py.format_b n)) as (n & Hn & ->).
  { destruct (String.eqb numformat "dec") eqn:Hdec.
    { apply String.eqb_eq in Hdec as ->.
      destruct (Py.int10 num) as [n|e] eqn:Hnum; [|done].
      cbn in H. simplify_eq. eauto. }
    destruct (String.eqb numformat "hex") eqn:Hhex; [|done].
    apply String.eqb_eq in Hhex as ->.
    destruct (Py.int16 num) as [n|e] eqn:Hnum; [|done].
    cbn in H. simplify_eq. eauto. }
  exists n. split; [done|].
  split; [apply zfill_format_b_value|].
  split; [apply zfill_format_b_sign|].
  split; [apply zfill_length|].
  intros Hw Hfit. by apply zfill_format_b.
Qed.

Lemma format2bin_never_truncates_witness :
  ∃ n,
    (("hex" = "dec" ∧ Py.int10 "1ffff" = Ok n) ∨
     ("hex" = "hex" ∧ Py.int16 "1ffff" = Ok n)) ∧
    binary_value "11111111111111111" = Z.abs n ∧
    Py.startswith "11111111111111111" "-" = (n <? 0) ∧
    String.length "11111111111111111"
      = (16 `max` String.length (Py.format_b n))%nat ∧
    ((0 < 16)%nat → 0 ≤ n < 2 ^ Z.of_nat 16 →
     String.length "11111111111111111" = 16%nat).
Proof.
  apply (format2bin_never_truncates "1ffff" "hex" 16 "11111111111111111").
  reflexivity.
Defined.

(** X4: two locations whose key is computed have the same key only when
    they are the same location; the key of a location whose decimal text
    is within the limit of the conversions is computed, nothing is
    raised; and for a location from 0 to 4095 the key is 12 binary digits
    that stand for the location. *)
Theorem location_keys_are_distinct :
  (∀ a b key, location_key a = Ok key → location_key b = Ok key → a = b) ∧
  (∀ loc,
     within_str_limit loc →
     ∃ key,
       location_key loc = Ok key ∧
       (0 ≤ loc < 4096 →
        String.length key = 12%nat ∧ binary_value key = loc)).
Proof.
  split.
  - intros a b key. rewrite !location_key_ok. intros [= Ha] [= Hb].
    rewrite <- Hb in Ha. by apply zfill_format_b_inj in Ha.
  - intros loc _. exists (key_of loc). split; [apply location_key_ok|].
    apply key_of_12_bits.
Qed.

Lemma location_keys_are_distinct_witness :
  ∃ key,
    location_key 4095 = Ok key ∧
    (0 ≤ 4095 < 4096 →
     String.length key = 12%nat ∧ binary_value key = 4095).
Proof.
  apply (proj2 location_keys_are_distinct 4095).
  unfold within_str_limit. apply Nat.leb_le. reflexivity.
Defined.

(** ** The sweep, cell by cell *)

(** X5: the first loop of Pass Two changes no key of the address-symbol
    table and replaces every value on its own: by the word of the I/O
    table when the value is a key there, else by the word of the
    register-reference table when the value is a key there, else not at
    all.  A replaced word is not looked up a second time. *)
Theorem sweep_is_pointwise (rri ioi t : dict) (key : string) :
  sweep rri ioi t !! key =
  match t !! key with
  | None => None
  | Some value =>
      Some match ioi !! value with
           | Some word => word
           | None =>
               match rri !! value with
               | Some word => word
               | None => value
               end
           end
  end.
Proof. rewrite sweep_lookup. by destruct (t !! key). Qed.

(** ** The location counter without origin directives *)

Lemma first_pass_line_not_stored line loc ast la loc' ast' la' :
  first_pass_line line loc ast la = Ok (Next loc', ast', la') →
  stored line = false →
  head line ≠ Some "org" →
  loc' = loc.
Proof.
  unfold first_pass_line, stored. intros H Hst Horg.
  destruct line as [|opcode rest]; [by simplify_eq|].
  destruct (islabel opcode); [done|]. cbn in Hst.
  destruct (String.eqb opcode "org") eqn:E.
  { apply String.eqb_eq in E as ->. by destruct Horg. }
  destruct (String.eqb opcode "end"); [done|]. done.
Qed.

Lemma first_pass_loop_counts lines loc0 loc :
  (first_pass_loop lines loc0 ∅ ∅).1.1 = Exhausted loc →
  Forall (λ line, head line ≠ Some "org") lines →
  loc = loc0 + Z.of_nat (length (List.filter stored lines)).
Proof.
  revert loc0. induction lines as [|line rest IH]; intros loc0 Hrun Horg.
  { cbn in *. simplify_eq. lia. }
  apply Forall_cons in Horg as [Hline Horg].
  cbn [first_pass_loop] in Hrun.
  destruct (first_pass_line line loc0 ∅ ∅) as [[[[loc1|] w] l]|e] eqn:Hl;
    [|done..].
  rewrite first_pass_loop_exit in Hrun. specialize (IH loc1 Hrun Horg).
  cbn [List.filter].
  destruct (stored line) eqn:Hst.
  - apply first_pass_line_stored in Hl; [|done]. simplify_eq.
    cbn [length]. lia.
  - apply first_pass_line_not_stored in Hl; [|done..]. lia.
Qed.

(** X6: as long as no line before it is an origin directive, Pass One
    arrives at a line with a location counter equal to the number of lines
    before it that it stored: the first stored line is at location 0 and
    every stored line moves the counter by one; empty lines do not. *)
Theorem counter_counts_stored_lines
    (lines : list (list string)) (i : nat) (loc : Z) :
  arrival lines i = Some loc →
  Forall (λ line, head line ≠ Some "org") (take i lines) →
  loc = Z.of_nat (length (List.filter stored (take i lines))).
Proof.
  unfold arrival, arrival_from. intros Harr Horg.
  destruct ((first_pass_loop (take i lines) 0 ∅ ∅).1.1) as [loc'| |] eqn:Hrun;
    simplify_eq.
  by apply first_pass_loop_counts in Hrun.
Qed.

Lemma counter_counts_stored_lines_witness :
  3 = Z.of_nat (length (List.filter stored
        (take 5 [["cla"]; []; ["x,"; "hex"; "1"]; []; ["inc"]; ["hlt"]; ["end"]]))).
Proof.
  apply (counter_counts_stored_lines
           [["cla"]; []; ["x,"; "hex"; "1"]; []; ["inc"]; ["hlt"]; ["end"]]
           5 3).
  - reflexivity.
  - repeat constructor; discriminate.
Defined.

(** ** The entries of the returned mapping *)

(** X7: for a lower-case program that has an end directive and assembles,
    the returned mapping has an entry at a key exactly when some line of
    the program is stored in the cell of that key: no location that
    Pass One assigned is missing, and nothing else is there. *)
Theorem output_has_the_assigned_cells asm mri rri ioi out k :
  lowercase (rm_comments asm) →
  has_end (rm_comments asm) →
  assemble_program asm mri rri ioi = Ok out →
  is_Some (out !! k) ↔ ∃ j, cell_key (rm_comments asm) j = Some k.
Proof.
  intros Hlow Hend Hout. split; [|intros [j Hj]; by eapply end_directive_covers_cells].
  intros Hk. set (lines := rm_comments asm) in *.
  destruct (decide (Exists (λ j, cell_key lines j = Some k)
                      (seq 0 (length lines)))) as [Hex|Hnone].
  { apply Exists_exists in Hex as (j & _ & Hj). by exists j. }
  exfalso.
  assert (∀ j, cell_key_from 0 lines j ≠ Some k) as Hfree.
  { intros j Hj. apply Hnone, Exists_exists. exists j. split; [|done].
    apply elem_of_seq. split; [lia|]. cbn.
    unfold cell_key_from in Hj.
    destruct (lines !! j) as [line|] eqn:Hline; [|done].
    by apply lookup_lt_Some in Hline. }
  apply assemble_program_Ok in Hout
    as (e1 & ast1 & la1 & e2 & ast2 & H1 & Hok1 & H2 & Hok2 & ->).
  fold lines in H1, H2.
  pose proof (first_pass_loop_frame k lines 0 ∅ ∅ Hfree) as Hfr1.
  unfold first_pass in H1. rewrite H1 in Hfr1. cbn in Hfr1.
  assert (∀ e, (first_pass_loop lines 0 ∅ ∅).1.1 ≠ Failed e) as Hok1'
    by by rewrite H1.
  pose proof (second_pass_loop_frame mri la1 k lines 0 (sweep rri ioi ast1)
                Hlow Hok1' Hfree) as Hfr2.
  unfold second_pass in H2. rewrite H2 in Hfr2. cbn in Hfr2.
  rewrite sweep_lookup, Hfr1, lookup_empty in Hfr2.
  destruct e2; rewrite ?lookup_empty, ?Hfr2 in Hk; by destruct Hk.
Qed.

Lemma output_has_the_assigned_cells_witness :
  is_Some (({[ "000000010000" := "0111100000000000";
               "000000010001" := "0000000000000111" ]} : dict)
             !! "000000010001")
  ↔ ∃ j, cell_key (rm_comments [["org"; "10"]; ["cle"; "/x"]; ["v,"; "hex"; "7"]; ["end"]]) j
         = Some "000000010001".
Proof.
  apply (output_has_the_assigned_cells
           [["org"; "10"]; ["cle"; "/x"]; ["v,"; "hex"; "7"]; ["end"]]
           ∅ {[ "cle" := "0111100000000000" ]} ∅).
  - solve_lowercase.
  - solve_has_end.
  - vm_compute. reflexivity.
Defined.

(** ** Programs without an end directive, and lines after it *)

Lemma second_pass_loop_no_end mri la lines loc ast :
  Forall (λ line, ∀ op, head line = Some op → Py.lower op ≠ "end") lines →
  (second_pass_loop mri la lines loc ast).1 ≠ Stopped.
Proof.
  intros Hno. revert loc ast.
  induction Hno as [|line rest Hline _ IH]; intros loc ast; [done|].
  cbn [second_pass_loop].
  destruct (second_pass_line mri la line loc ast) as [[[loc1|] ast1]|e] eqn:Hl;
    [apply IH| |done].
  exfalso. unfold second_pass_line in Hl.
  destruct line as [|opcode tl]; [done|].
  specialize (Hline opcode eq_refl). apply String.eqb_neq in Hline.
  rewrite Hline in Hl.
  destruct (is_pseudo_instruction opcode).
  - destruct (String.eqb (Py.lower opcode) "org"); [|done].
    destruct (item (opcode :: tl) 1) as [tok|]; [|done]. cbn in Hl.
    by destruct (Py.int16 tok).
  - destruct (mri !! Py.lower opcode); [|done].
    rewrite location_key_ok in Hl.
    repeat (case_bind; [|done]). done.
Qed.

(** X8: when no line of the program starts with the end directive,
    [assemble] on a fresh object returns the empty mapping if it returns
    at all, whatever the two passes stored in the address-symbol table. *)
Theorem no_end_directive_empty_mapping asm mri rri ioi out :
  Forall (λ line, ∀ op, head line = Some op → Py.lower op ≠ "end")
    (rm_comments asm) →
  assemble_program asm mri rri ioi = Ok out →
  out = ∅.
Proof.
  intros Hno Hout.
  apply assemble_program_Ok in Hout
    as (e1 & ast1 & la1 & e2 & ast2 & H1 & Hok1 & H2 & Hok2 & ->).
  pose proof (second_pass_loop_no_end mri la1 _ 0 (sweep rri ioi ast1) Hno) as Hne.
  unfold second_pass in H2. rewrite H2 in Hne. by destruct e2.
Qed.

Lemma no_end_directive_empty_mapping_witness :
  (∅ : dict) = ∅.
Proof.
  apply (no_end_directive_empty_mapping
           [["org"; "20"]; ["cla"]; ["x,"; "hex"; "a"]; ["lda"; "x"]]
           {[ "lda" := "010" ]} {[ "cla" := "0111100000000000" ]} ∅).
  - cbn. repeat constructor; intros op [= <-]; discriminate.
  - vm_compute. reflexivity.
Defined.

Lemma rm_comments_app pre post :
  rm_comments (pre ++ post) = rm_comments pre ++ rm_comments post.
Proof. apply map_app. Qed.

Lemma first_pass_end pre rest post ast la :
  first_pass (pre ++ ("end" :: rest) :: post) ast la
  = first_pass (pre ++ [("end" :: rest)]) ast la.
Proof.
  unfold first_pass. rewrite !first_pass_loop_app.
  by destruct (first_pass_loop pre 0 ast la) as [[[loc| |e] w] l].
Qed.

Lemma second_pass_end mri rri ioi la pre rest post ast :
  second_pass mri rri ioi la (pre ++ ("end" :: rest) :: post) ast
  = second_pass mri rri ioi la (pre ++ [("end" :: rest)]) ast.
Proof.
  unfold second_pass. rewrite !second_pass_loop_app.
  by destruct (second_pass_loop mri la pre 0 (sweep rri ioi ast))
    as [[loc| |e] w].
Qed.

(** X9: nothing that follows the end directive matters.  The result of
    [assemble], mapping or exception, is the one of the program cut after
    its end directive, whatever the later lines hold. *)
Theorem lines_after_end_are_ignored
    (pre post : list (list string)) (rest : list string) (mri rri ioi : dict) :
  assemble_program (pre ++ ("end" :: rest) :: post) mri rri ioi
  = assemble_program (pre ++ [("end" :: rest)]) mri rri ioi.
Proof.
  rewrite !assemble_program_unfold by by destruct pre.
  rewrite !rm_comments_app. cbn [rm_comments map rm_comments_line].
  change (Py.startswith "end" "/") with false. cbn iota.
  rewrite first_pass_end.
  destruct (first_pass _ ∅ ∅) as [[e1 ast1] la1].
  by rewrite second_pass_end.
Qed.

Lemma first_pass_blank pre post ast la :
  first_pass (pre ++ [] :: post) ast la = first_pass (pre ++ post) ast la.
Proof.
  unfold first_pass. rewrite !first_pass_loop_app.
  by destruct (first_pass_loop pre 0 ast la) as [[[loc| |e] w] l].
Qed.

Lemma second_pass_blank mri rri ioi la pre post ast :
  second_pass mri rri ioi la (pre ++ [] :: post) ast
  = second_pass mri rri ioi la (pre ++ post) ast.
Proof.
  unfold second_pass. rewrite !second_pass_loop_app.
  by destruct (second_pass_loop mri la pre 0 (sweep rri ioi ast))
    as [[loc| |e] w].
Qed.

(** X10: a line that is empty once the comments are removed (an empty
    line, or a line that starts with a comment) can be taken out of a
    program with other lines without changing the result of [assemble]:
    such a line takes no location. *)
Theorem blank_lines_take_no_location
    (pre post : list (list string)) (line : list string) (mri rri ioi : dict) :
  rm_comments_line line = [] →
  pre ++ post ≠ [] →
  assemble_program (pre ++ line :: post) mri rri ioi
  = assemble_program (pre ++ post) mri rri ioi.
Proof.
  intros Hline Hne.
  rewrite !assemble_program_unfold by (done || by destruct pre).
  rewrite !rm_comments_app. cbn [rm_comments map]. rewrite Hline.
  fold (rm_comments post). rewrite first_pass_blank.
  destruct (first_pass _ ∅ ∅) as [[e1 ast1] la1].
  by rewrite second_pass_blank.
Qed.

Lemma blank_lines_take_no_location_witness :
  assemble_program ([["cla"]] ++ ["/a"; "comment"] :: [["inc"]; ["end"]])
    ∅ {[ "cla" := "0111100000000000"; "inc" := "0111000000100000" ]} ∅
  = assemble_program ([["cla"]] ++ [["inc"]; ["end"]])
      ∅ {[ "cla" := "0111100000000000"; "inc" := "0111000000100000" ]} ∅.
Proof.
  apply blank_lines_take_no_location; [reflexivity | discriminate].
Defined.

(** ** The exceptions of [assemble] *)

Lemma item_Raise line i e : item line i = Raise e → e = IndexError.
Proof. unfold item. destruct (line !! i); by intros [= <-]. Qed.

Lemma int16_Raise s e : Py.int16 s = Raise e → e = ValueError s.
Proof.
  unfold Py.int16. destruct (Py.hex_signed (Py.strip s)); by intros [= <-].
Qed.

Lemma int10_Raise s e : Py.int10 s = Raise e → e = ValueError s.
Proof.
  unfold Py.int10.
  destruct (Py.dec_text (Py.strip s) ≫= NilZero.int_of_string); by intros [= <-].
Qed.

Lemma format2bin_hex_Raise num w e :
  format2bin num "hex" w = Raise e → e = ValueError num.
Proof.
  unfold format2bin. cbn. destruct (Py.int16 num) eqn:H; [done|].
  apply int16_Raise in H as ->. by intros [= <-].
Qed.

Lemma format2bin_dec_Raise num w e :
  format2bin num "dec" w = Raise e → e = ValueError num.
Proof.
  unfold format2bin. cbn. destruct (Py.int10 num) eqn:H; [done|].
  apply int10_Raise in H as ->. by intros [= <-].
Qed.

Lemma first_pass_line_Raise line loc ast la e :
  first_pass_line line loc ast la = Raise e →
  e = IndexError ∨ ∃ literal, e = ValueError literal.
Proof.
  unfold first_pass_line. intros H.
  destruct line as [|opcode rest]; [done|].
  rewrite !location_key_ok in H. cbn [mbind result_bind] in H.
  destruct (islabel opcode).
  - destruct (item (opcode :: rest) 1) as [tok1|x] eqn:H1;
      cbn [mbind result_bind] in H;
      [|apply item_Raise in H1; simplify_eq; by left].
    destruct (negb (String.eqb tok1 "hex")); [done|].
    destruct (item (opcode :: rest) 2) as [tok2|x] eqn:H2;
      cbn [mbind result_bind] in H;
      [|apply item_Raise in H2; simplify_eq; by left].
    destruct (format2bin tok2 "hex" 16) as [word|x] eqn:H3; [done|].
    apply format2bin_hex_Raise in H3. cbn in H. simplify_eq. eauto.
  - destruct (String.eqb opcode "org").
    + destruct (item (opcode :: rest) 1) as [tok1|x] eqn:H1;
        cbn [mbind result_bind] in H;
        [|apply item_Raise in H1; simplify_eq; by left].
      destruct (Py.int16 tok1) as [n|x] eqn:H2; [done|].
      apply int16_Raise in H2. cbn in H. simplify_eq. eauto.
    + by destruct (String.eqb opcode "end").
Qed.

Lemma second_pass_line_Raise mri la line loc ast e :
  second_pass_line mri la line loc ast = Raise e →
  e = IndexError ∨ (∃ literal, e = ValueError literal) ∨
  (∃ key, e = KeyError key ∧ la !! key = None).
Proof.
  unfold second_pass_line. intros H.
  destruct line as [|opcode rest]; [done|].
  rewrite !location_key_ok in H. cbn [mbind result_bind] in H.
  destruct (is_pseudo_instruction opcode).
  - destruct (String.eqb (Py.lower opcode) "org").
    + destruct (item (opcode :: rest) 1) as [tok1|x] eqn:H1;
        cbn [mbind result_bind] in H;
        [|apply item_Raise in H1; simplify_eq; by left].
      destruct (Py.int16 tok1) as [n|x] eqn:H2; [done|].
      apply int16_Raise in H2. cbn in H. simplify_eq. eauto.
    + by destruct (String.eqb (Py.lower opcode) "end").
  - destruct (mri !! Py.lower opcode); [|done].
    destruct (item (opcode :: rest) 1) as [tok1|x] eqn:H1;
      cbn [mbind result_bind] in H;
      [|apply item_Raise in H1; simplify_eq; by left]. unfold getitem in H.
    destruct (la !! tok1) as [address|] eqn:H2;
      [|cbn in H; simplify_eq; right; right; eauto].
    cbn [mbind result_bind] in H.
    destruct (format2bin address "dec" 12) as [b|x] eqn:H3; [done|].
    apply format2bin_dec_Raise in H3. cbn in H. simplify_eq. eauto.
Qed.

Lemma first_pass_loop_Failed lines loc ast la e ast' la' :
  first_pass_loop lines loc ast la = (Failed e, ast', la') →
  e = IndexError ∨ ∃ literal, e = ValueError literal.
Proof.
  revert loc ast la. induction lines as [|line rest IH]; intros loc ast la H;
    [done|].
  cbn [first_pass_loop] in H.
  destruct (first_pass_line line loc ast la) as [[[[loc1|] w] l]|x] eqn:Hl.
  - by eapply IH.
  - done.
  - simplify_eq. by eapply first_pass_line_Raise.
Qed.

Lemma second_pass_loop_Failed mri la lines loc ast e ast' :
  second_pass_loop mri la lines loc ast = (Failed e, ast') →
  e = IndexError ∨ (∃ literal, e = ValueError literal) ∨
  (∃ key, e = KeyError key ∧ la !! key = None).
Proof.
  revert loc ast. induction lines as [|line rest IH]; intros loc ast H; [done|].
  cbn [second_pass_loop] in H.
  destruct (second_pass_line mri la line loc ast) as [[[loc1|] w]|x] eqn:Hl.
  - by eapply IH.
  - done.
  - simplify_eq. by eapply second_pass_line_Raise.
Qed.

(** X11: the exceptions of [assemble] on a fresh object.  An empty program
    fails the assertion, and only an empty program does.  Otherwise the
    only exceptions are an index error (a missing token), a value error
    (a malformed number) and a key error, whose key is then a token that
    is not in the label table of Pass One.  The unsupported-format
    exception of [__format2bin] is never raised. *)
Theorem assemble_raises_only asm mri rri ioi e :
  assemble_program asm mri rri ioi = Raise e →
  (asm = [] ∧ e = AssertionError) ∨
  (asm ≠ [] ∧
   (e = IndexError ∨ (∃ literal, e = ValueError literal) ∨
    (∃ key, e = KeyError key ∧
            (first_pass (rm_comments asm) ∅ ∅).2 !! key = None))).
Proof.
  destruct (decide (asm = [])) as [->|Hne].
  { intros [= <-]. by left. }
  rewrite assemble_program_unfold by done. intros H. right. split; [done|].
  destruct (first_pass (rm_comments asm) ∅ ∅) as [[e1 ast1] la1] eqn:H1.
  cbn [snd].
  assert (∀ x ast2, second_pass mri rri ioi la1 (rm_comments asm) ast1
                    = (Failed x, ast2) →
            x = IndexError ∨ (∃ literal, x = ValueError literal) ∨
            (∃ key, x = KeyError key ∧ la1 !! key = None)) as Hsecond.
  { intros x ast2 H2. by eapply second_pass_loop_Failed. }
  destruct e1 as [loc1| |x].
  - destruct (second_pass mri rri ioi la1 (rm_comments asm) ast1)
      as [[loc2| |x] ast2] eqn:H2; simplify_eq. by eapply Hsecond.
  - destruct (second_pass mri rri ioi la1 (rm_comments asm) ast1)
      as [[loc2| |x] ast2] eqn:H2; simplify_eq. by eapply Hsecond.
  - simplify_eq. unfold first_pass in H1.
    apply first_pass_loop_Failed in H1 as [->|?]; eauto.
Qed.

Lemma assemble_raises_only_witness :
  ([["lda"; "y"]; ["end"]] = [] ∧ KeyError "y" = AssertionError) ∨
  ([["lda"; "y"]; ["end"]] ≠ [] ∧
   (KeyError "y" = IndexError ∨ (∃ literal, KeyError "y" = ValueError literal) ∨
    (∃ key, KeyError "y" = KeyError key ∧
            (first_pass (rm_comments [["lda"; "y"]; ["end"]]) ∅ ∅).2 !! key
            = None))).
Proof.
  apply (assemble_raises_only [["lda"; "y"]; ["end"]] {[ "lda" := "010" ]} ∅ ∅).
  vm_compute. reflexivity.
Defined.

(** ** The label table *)


Lemma first_pass_line_labels line loc ast la f ast' la' :
  first_pass_line line loc ast la = Ok (f, ast', la') →
  (∃ opcode rest, line = opcode :: rest ∧ islabel opcode = true ∧
     f = Next (loc + 1) ∧
     la' = <[Py.drop_last opcode := Py.str loc]> la) ∨
  ((∀ opcode, head line = Some opcode → islabel opcode = false) ∧ la' = la).
Proof.
  unfold first_pass_line. intros H.
  destruct line as [|opcode rest]; [right; by simplify_eq|].
  rewrite !location_key_ok in H. cbn [mbind result_bind] in H.
  destruct (islabel opcode) eqn:Hlab.
  - left. exists opcode, rest.
    repeat (first [case_bind | case_if]); simplify_eq; eauto.
  - right. split; [by intros ? [= <-]|].
    repeat (first [case_if | case_bind]); by simplify_eq.
Qed.

Lemma first_pass_loop_addresses lines loc ast la :
  addresses_are_numbers la →
  addresses_are_numbers (first_pass_loop lines loc ast la).2.
Proof.
  revert loc ast la. induction lines as [|line rest IH]; intros loc ast la Hla;
    [done|].
  cbn [first_pass_loop].
  destruct (first_pass_line line loc ast la) as [[[f w] l]|x] eqn:Hl; [|done].
  assert (addresses_are_numbers l) as Hl'.
  { apply first_pass_line_labels in Hl
      as [(opcode & tl & _ & _ & _ & ->)|[_ ->]]; [|done].
    intros name address. destruct (decide (Py.drop_last opcode = name)) as [->|Hne].
    - rewrite lookup_insert_eq. intros [= <-]. by eexists.
    - rewrite lookup_insert_ne by done. apply Hla. }
  destruct f as [loc1|]; [by apply IH | done].
Qed.

Lemma first_pass_loop_label_frame name lines loc ast la :
  Forall (λ line, defines name line = false) lines →
  (first_pass_loop lines loc ast la).2 !! name = la !! name.
Proof.
  intros Hno. revert loc ast la.
  induction Hno as [|line rest Hline _ IH]; intros loc ast la; [done|].
  cbn [first_pass_loop].
  destruct (first_pass_line line loc ast la) as [[[f w] l]|x] eqn:Hl; [|done].
  assert (l !! name = la !! name) as Hsame.
  { apply first_pass_line_labels in Hl
      as [(opcode & tl & -> & Hlab & _ & ->)|[_ ->]]; [|done].
    cbn in Hline. rewrite Hlab in Hline. cbn in Hline.
    apply String.eqb_neq in Hline. by apply lookup_insert_ne. }
  destruct f as [loc1|]; [by rewrite IH | done].
Qed.

Lemma label_recorded
    (lines : list (list string)) (i : nat) (line : list string)
    (name : string) (loc : Z) (e : exit) (ast la : dict) :
  first_pass lines ∅ ∅ = (e, ast, la) →
  (∀ x, e ≠ Failed x) →
  lines !! i = Some line →
  defines name line = true →
  arrival lines i = Some loc →
  Forall (λ later, defines name later = false) (drop (S i) lines) →
  la !! name = Some (Py.str loc).
Proof.
  intros Hrun Hok Hi Hdef Harr Hlater. unfold first_pass in Hrun.
  rewrite <- (take_drop_middle _ _ _ Hi), first_pass_loop_app in Hrun.
  unfold arrival, arrival_from in Harr.
  destruct (first_pass_loop (take i lines) 0 ∅ ∅) as [[ep wp] lp].
  cbn in Harr. destruct ep as [loc'| |]; simplify_eq.
  cbn [first_pass_loop] in Hrun.
  destruct (first_pass_line line loc wp lp) as [[[f w] l]|x] eqn:Hl;
    [|simplify_eq; by destruct (Hok x)].
  apply first_pass_line_labels in Hl
    as [(opcode & tl & -> & Hlab & -> & ->)|[Hnot _]].
  - pose proof (first_pass_loop_label_frame name (drop (S i) lines) (loc + 1)
                  w (<[Py.drop_last opcode := Py.str loc]> lp) Hlater) as Hfr.
    rewrite Hrun in Hfr. cbn in Hfr. rewrite Hfr.
    cbn in Hdef. rewrite Hlab in Hdef. cbn in Hdef.
    apply String.eqb_eq in Hdef as ->. apply lookup_insert_eq.
  - destruct line as [|opcode tl]; [done|].
    cbn in Hdef. by rewrite (Hnot opcode eq_refl) in Hdef.
Qed.

(** X12: Pass One records a label at the location of the last line that
    defines it.  When a run of Pass One that does not raise reaches a line
    whose first token is the label [name] followed by a comma, and no
    later line defines [name] again, the label table maps [name] to the
    decimal text of the location counter at that line. *)
Theorem label_is_recorded_at_its_line
    (lines : list (list string)) (i : nat) (line : list string)
    (name : string) (loc : Z) (e : exit) (ast la : dict) :
  first_pass lines ∅ ∅ = (e, ast, la) →
  (∀ x, e ≠ Failed x) →
  lines !! i = Some line →
  defines name line = true →
  arrival lines i = Some loc →
  Forall (λ later, defines name later = false) (drop (S i) lines) →
  la !! name = Some (Py.str loc).
Proof. apply label_recorded. Qed.

Lemma label_is_recorded_at_its_line_witness :
  ({[ "x" := "18" ]} : dict) !! "x" = Some (Py.str 18).
Proof.
  apply (label_is_recorded_at_its_line
           [["org"; "10"]; ["x,"; "hex"; "1"]; ["cla"]; ["x,"; "hex"; "2"]; ["end"]]
           3 ["x,"; "hex"; "2"] "x" 18 Stopped
           {[ "000000010000" := "0000000000000001"; "000000010001" := "cla";
              "000000010010" := "0000000000000010" ]}).
  - vm_compute. reflexivity.
  - done.
  - reflexivity.
  - reflexivity.
  - reflexivity.
  - cbn. repeat constructor.
Defined.

(** ** What can go wrong in Pass Two *)

Lemma second_pass_line_Raise_lowercase mri la line loc a b r ast e :
  Forall (λ tok, Py.lower tok = tok) line →
  first_pass_line line loc a b = Ok r →
  addresses_are_numbers la →
  second_pass_line mri la line loc ast = Raise e →
  e = IndexError ∨ ∃ key, e = KeyError key ∧ la !! key = None.
Proof.
  intros Hlow H1 Hla H2.
  destruct line as [|opcode rest]; [done|].
  apply Forall_cons in Hlow as [Hop _].
  unfold first_pass_line in H1. unfold second_pass_line in H2.
  rewrite (is_pseudo_lowercase _ Hop), Hop in H2.
  rewrite !location_key_ok in H1, H2. cbn [mbind result_bind] in H1, H2.
  destruct (String.eqb opcode "org") eqn:Horg.
  { exfalso. apply String.eqb_eq in Horg as ->. cbn in H1, H2.
    destruct (item ("org" :: rest) 1) as [tok1|]; [|done]. cbn in H1, H2.
    by destruct (Py.int16 tok1). }
  destruct (String.eqb opcode "end"); [done|].
  destruct (String.eqb opcode "dec"); [done|]. cbn [orb] in H2.
  destruct (mri !! opcode); [|done].
  destruct (item (opcode :: rest) 1) as [tok1|x] eqn:Hi;
    cbn [mbind result_bind] in H2;
    [|apply item_Raise in Hi; simplify_eq; by left].
  unfold getitem in H2.
  destruct (la !! tok1) as [address|] eqn:Haddr;
    cbn [mbind result_bind] in H2; [|simplify_eq; right; eauto].
  destruct (Hla _ _ Haddr) as [n ->].
  rewrite format2bin_dec_str in H2. done.
Qed.

Lemma second_pass_loop_Failed_lowercase mri la lines loc0 ast e ast' :
  lowercase lines →
  (∀ x, (first_pass_loop lines loc0 ∅ ∅).1.1 ≠ Failed x) →
  addresses_are_numbers la →
  second_pass_loop mri la lines loc0 ast = (Failed e, ast') →
  e = IndexError ∨ ∃ key, e = KeyError key ∧ la !! key = None.
Proof.
  revert loc0 ast. induction lines as [|line rest IH];
    intros loc0 ast Hlow Hok Hla H2; [done|].
  apply Forall_cons in Hlow as [Hline Hlow].
  apply first_pass_loop_cons_ok in Hok as (f1 & w & l & H1 & Hrest).
  cbn [second_pass_loop] in H2.
  destruct (second_pass_line mri la line loc0 ast) as [[f2 w2]|x] eqn:Hl2.
  - destruct (passes_in_step _ _ _ _ _ _ _ _ _ _ _ _ Hline H1 Hl2) as [-> _].
    destruct f1 as [loc1|]; [by eapply IH | done].
  - simplify_eq. by eapply second_pass_line_Raise_lowercase.
Qed.

(** X13: for a lower-case program on which Pass One does not raise,
    [assemble] can only fail on a memory-reference line: with an index
    error when the line has no operand, or with a key error whose key is
    an operand that is no label of the program.  The numbers of the
    origin directives were already read by Pass One, and the addresses of
    the label table are always numbers. *)
Theorem pass_two_fails_only_on_operands asm mri rri ioi e1 ast1 la1 e :
  asm ≠ [] →
  lowercase (rm_comments asm) →
  first_pass (rm_comments asm) ∅ ∅ = (e1, ast1, la1) →
  (∀ x, e1 ≠ Failed x) →
  assemble_program asm mri rri ioi = Raise e →
  e = IndexError ∨ ∃ key, e = KeyError key ∧ la1 !! key = None.
Proof.
  intros Hne Hlow H1 Hok1 H.
  rewrite assemble_program_unfold, H1 in H by done.
  assert (addresses_are_numbers la1) as Hla.
  { pose proof (first_pass_loop_addresses (rm_comments asm) 0 ∅ ∅) as Hinv.
    unfold first_pass in H1. rewrite H1 in Hinv. apply Hinv.
    intros name address. by rewrite lookup_empty. }
  assert (∀ x, (first_pass_loop (rm_comments asm) 0 ∅ ∅).1.1 ≠ Failed x)
    as Hok1' by (unfold first_pass in H1; by rewrite H1).
  destruct (second_pass mri rri ioi la1 (rm_comments asm) ast1)
    as [e2 ast2] eqn:H2.
  assert (∃ x, e2 = Failed x ∧ x = e) as (x & -> & ->).
  { destruct e1 as [loc1| |x]; [| |by destruct (Hok1 x)];
      destruct e2 as [loc2| |x]; simplify_eq; eauto. }
  unfold second_pass in H2. by eapply second_pass_loop_Failed_lowercase.
Qed.

Lemma pass_two_fails_only_on_operands_witness :
  IndexError = IndexError ∨
  ∃ key, IndexError = KeyError key ∧ ({[ "x" := "1" ]} : dict) !! key = None.
Proof.
  apply (pass_two_fails_only_on_operands
           [["org"; "1"]; ["x,"; "hex"; "5"]; ["lda"]; ["end"]]
           {[ "lda" := "010" ]} ∅ ∅ Stopped
           {[ "000000000001" := "0000000000000101"; "000000000010" := "lda" ]}).
  - discriminate.
  - solve_lowercase.
  - vm_compute. reflexivity.
  - done.
  - vm_compute. reflexivity.
Defined.

(** ** Memory-reference lines and forward references *)

Lemma final_cell_with_labels asm mri rri ioi out i line loc :
  lowercase (rm_comments asm) →
  has_end (rm_comments asm) →
  assemble_program asm mri rri ioi = Ok out →
  rm_comments asm !! i = Some line →
  stored line = true →
  arrival (rm_comments asm) i = Some loc →
  (∀ j, j ≠ i → cell_key (rm_comments asm) j ≠ Some (key_of loc)) →
  ∃ e1 ast1 la1 w1 l1 w2,
    first_pass (rm_comments asm) ∅ ∅ = (e1, ast1, la1) ∧
    (∀ x, e1 ≠ Failed x) ∧
    first_pass_line line loc ∅ ∅ = Ok (Next (loc + 1), w1, l1) ∧
    second_pass_line mri la1 line loc ∅ = Ok (Next (loc + 1), w2) ∧
    out !! key_of loc = (w2 ∪ (sweep_value rri ioi <$> w1)) !! key_of loc.
Proof.
  intros Hlow Hend Hout Hi Hst Harr Huniq.
  apply assemble_program_Ok in Hout
    as (e1 & ast1 & la1 & e2 & ast2 & H1 & Hok1 & H2 & Hok2 & ->).
  exists e1, ast1, la1.
  set (lines := rm_comments asm) in *.
  assert (e2 = Stopped) as ->.
  { pose proof (second_pass_loop_has_end mri la1 lines 0 (sweep rri ioi ast1) Hend)
      as Hne.
    unfold second_pass in H2. rewrite H2 in Hne. cbn in Hne.
    destruct e2 as [loc2| |e]; [by destruct (Hne loc2) | done | by destruct (Hok2 e)]. }
  pose proof (take_drop_middle _ _ _ Hi) as Hsplit.
  pose proof (lookup_lt_Some _ _ _ Hi) as Hlen.
  assert (length (take i lines) = i) as Hlenpre by (rewrite length_take; lia).
  assert ((first_pass_loop (take i lines) 0 ∅ ∅).1.1 = Exhausted loc) as Hpre.
  { unfold arrival, arrival_from in Harr.
    destruct ((first_pass_loop (take i lines) 0 ∅ ∅).1.1); by simplify_eq. }
  unfold cell_key in Huniq.
  pose proof H1 as H1'.
  rewrite <- Hsplit in H1', H2, Hlow, Huniq.
  assert (∃ w1 l1 w2,
            first_pass_line line loc ∅ ∅ = Ok (Next (loc + 1), w1, l1) ∧
            second_pass_line mri la1 line loc ∅ = Ok (Next (loc + 1), w2) ∧
            ast2 !! key_of loc
            = (w2 ∪ (sweep_value rri ioi <$> w1)) !! key_of loc)
    as (w1 & l1 & w2 & ? & ? & ?); [|by exists w1, l1, w2].
  apply (final_cell_split mri rri ioi _ _ _ _ _ _ _ _ _ Hlow H1' Hok1 H2 Hok2 Hpre Hst).
  - intros j. destruct (decide (j < i)%nat) as [Hj|Hj].
    + rewrite <- (cell_key_from_prefix _ (line :: drop (S i) lines)) by lia.
      apply Huniq. lia.
    + unfold cell_key_from. rewrite lookup_ge_None_2 by lia. done.
  - intros j.
    rewrite <- (cell_key_from_app (take i lines ++ [line]) _ 0).
    + rewrite <- (assoc_L (++)). cbn [app]. apply Huniq.
      rewrite length_app. cbn. lia.
    + by eapply first_pass_loop_middle.
Qed.

(** X14: a memory-reference line is resolved against the whole program,
    so its operand may be a label defined later.  Take a lower-case
    program that has an end directive and assembles, a line [k] whose
    first token is in the memory-reference table with opcode [code] and
    whose second token is [operand], and the last line [i] that defines
    the label [operand], before or after line [k].  If no other line is
    stored in the cell of line [k], the returned mapping holds there the
    mode bit 0, then [code], then the key of the location of line [i]; the
    word has 16 characters when [code] has 3 and that location is below
    4096. *)
Theorem memory_reference_resolves_label
    asm mri rri ioi out k opcode operand rest code lock i definer loci :
  lowercase (rm_comments asm) →
  has_end (rm_comments asm) →
  assemble_program asm mri rri ioi = Ok out →
  rm_comments asm !! k = Some (opcode :: operand :: rest) →
  is_pseudo_instruction opcode = false →
  mri !! opcode = Some code →
  arrival (rm_comments asm) k = Some lock →
  (∀ j, j ≠ k → cell_key (rm_comments asm) j ≠ Some (key_of lock)) →
  rm_comments asm !! i = Some definer →
  defines operand definer = true →
  arrival (rm_comments asm) i = Some loci →
  Forall (λ later, defines operand later = false)
    (drop (S i) (rm_comments asm)) →
  out !! key_of lock = Some ("0" +:+ code +:+ key_of loci) ∧
  (String.length code = 3%nat → 0 ≤ loci < 4096 →
   String.length ("0" +:+ code +:+ key_of loci) = 16%nat).
Proof.
  intros Hlow Hend Hout Hk Hps Hmri Harrk Huniq Hi Hdef Harri Hlater.
  split.
  2:{ intros Hcode Hloci. rewrite !string_length_app, Hcode.
      destruct (key_of_12_bits loci Hloci) as [-> _]. done. }
  assert (Py.lower opcode = opcode) as Hlower.
  { apply list_elem_of_lookup_2 in Hk.
    unfold lowercase in Hlow. rewrite Forall_forall in Hlow.
    specialize (Hlow _ Hk). by apply Forall_cons in Hlow as [? _]. }
  assert (stored (opcode :: operand :: rest) = true) as Hst.
  { rewrite (is_pseudo_lowercase _ Hlower) in Hps. cbn.
    destruct (String.eqb opcode "org"); [done|].
    destruct (String.eqb opcode "end"); [done|]. apply orb_true_r. }
  destruct (final_cell_with_labels _ _ _ _ _ _ _ _ Hlow Hend Hout Hk Hst Harrk Huniq)
    as (e1 & ast1 & la1 & w1 & l1 & w2 & H1 & Hok1 & Hl1 & Hl2 & ->).
  pose proof (label_recorded _ _ _ _ _ _ _ _
                H1 Hok1 Hi Hdef Harri Hlater) as Hla.
  rewrite <- Hlower in Hmri.
  rewrite (memory_reference_word _ _ _ _ _ _ _ _ _ Hps Hmri Hla) in Hl2.
  rewrite (has_char_I_lowercase _ Hlower) in Hl2. simplify_eq.
  apply lookup_union_Some_l, lookup_insert_eq.
Qed.

Lemma memory_reference_resolves_label_witness :
  ({[ "000100000000" := "0010000100000010";
      "000100000001" := "0111000000000001";
      "000100000010" := "0000000000000111" ]} : dict) !! key_of 256
    = Some ("0" +:+ "010" +:+ key_of 258) ∧
  (String.length "010" = 3%nat → 0 ≤ 258 < 4096 →
   String.length ("0" +:+ "010" +:+ key_of 258) = 16%nat).
Proof.
  apply (memory_reference_resolves_label
           [["org"; "100"]; ["lda"; "x"; "/load"]; ["hlt"]; ["x,"; "hex"; "7"];
            ["end"]]
           {[ "lda" := "010" ]} {[ "hlt" := "0111000000000001" ]} ∅ _
           1%nat "lda" "x" [] "010" 256 3%nat ["x,"; "hex"; "7"] 258).
  - solve_lowercase.
  - solve_has_end.
  - vm_compute. reflexivity.
  - reflexivity.
  - reflexivity.
  - reflexivity.
  - reflexivity.
  - intros [|[|[|[|[|j]]]]] Hj; try done; vm_compute; discriminate.
  - reflexivity.
  - reflexivity.
  - reflexivity.
  - cbn. repeat constructor.
Defined.

(** ** The two passes side by side *)

(** X15: on a lower-case program the two passes walk in step.  If neither
    raises, Pass Two leaves its loop the way Pass One left its own: both
    at the end directive, or both at the end of the lines with the same
    location counter. *)
Theorem passes_walk_in_step (mri la : dict) (lines : list (list string))
    (ast : dict) :
  lowercase lines →
  (∀ e, (first_pass lines ∅ ∅).1.1 ≠ Failed e) →
  (∀ e, (second_pass_loop mri la lines 0 ast).1 ≠ Failed e) →
  (second_pass_loop mri la lines 0 ast).1 = (first_pass lines ∅ ∅).1.1.
Proof. apply passes_exit_in_step. Qed.

Lemma passes_walk_in_step_witness :
  (second_pass_loop {[ "lda" := "010" ]} {[ "x" := "33" ]}
     [["org"; "20"]; ["lda"; "x"]; ["x,"; "hex"; "7"]; []; ["cla"]] 0 ∅).1
  = (first_pass [["org"; "20"]; ["lda"; "x"]; ["x,"; "hex"; "7"]; []; ["cla"]]
       ∅ ∅).1.1.
Proof.
  apply passes_walk_in_step.
  - solve_lowercase.
  - intros e. vm_compute. discriminate.
  - intros e. vm_compute. discriminate.
Defined.

(** X16: the two passes only add to the tables they are given, or
    overwrite entries of them.  A run of Pass One from tables [ast] and
    [la] is its run from empty tables laid over [ast] and [la], and it
    leaves its loop the same way; so does the loop of Pass Two over the
    lines.  What an earlier call left in the object does not change the
    control flow of a later call. *)
Theorem passes_lay_over_the_tables
    (mri la0 : dict) (lines : list (list string)) (ast la : dict) :
  first_pass lines ast la =
    (let '(e, w, l) := first_pass lines ∅ ∅ in (e, w ∪ ast, l ∪ la)) ∧
  second_pass_loop mri la0 lines 0 ast =
    (let '(e, w) := second_pass_loop mri la0 lines 0 ∅ in (e, w ∪ ast)).
Proof.
  split.
  - unfold first_pass. apply first_pass_loop_overlay.
  - apply second_pass_loop_overlay.
Qed.

(** ** Comments *)

Lemma rm_comments_line_cut (line : list string) :
  ∃ tail,
    line = rm_comments_line line ++ tail ∧
    Forall (λ tok, Py.startswith tok "/" = false) (rm_comments_line line) ∧
    (tail = [] ∨ ∃ tok rest, tail = tok :: rest ∧ Py.startswith tok "/" = true).
Proof.
  induction line as [|tok rest (tail & Heq & Hno & Htail)].
  { exists []. by repeat split; [constructor | left]. }
  cbn [rm_comments_line]. destruct (Py.startswith tok "/") eqn:Htok.
  - exists (tok :: rest). repeat split; [constructor|]. right. eauto.
  - exists tail. split; [cbn; by f_equal|]. split; [by constructor|done].
Qed.

(** X17: [__rm_comments] keeps the number of lines and cuts every line at
    its first token that starts with a slash: what is kept is the part of
    the line before that token, no kept token starts with a slash, and a
    slash inside a token cuts nothing.  Removing the comments a second
    time changes nothing. *)
Theorem rm_comments_cuts_at_first_comment (asm : list (list string)) :
  length (rm_comments asm) = length asm ∧
  rm_comments (rm_comments asm) = rm_comments asm ∧
  ∀ i kept,
    rm_comments asm !! i = Some kept →
    ∃ line tail,
      asm !! i = Some line ∧ line = kept ++ tail ∧
      Forall (λ tok, Py.startswith tok "/" = false) kept ∧
      (tail = [] ∨ ∃ tok rest, tail = tok :: rest ∧ Py.startswith tok "/" = true).
Proof.
  split; [apply length_map|]. split; [apply rm_comments_idemp|].
  intros i kept Hi. unfold rm_comments in Hi.
  rewrite list_lookup_fmap in Hi.
  destruct (asm !! i) as [line|]; [|done]. cbn in Hi. simplify_eq.
  destruct (rm_comments_line_cut line) as (tail & Heq & Hno & Htail).
  by exists line, tail.
Qed.

(** ** Tokens that no table knows *)

(** X18: a token that no table knows is passed through.  Take a
    lower-case program that has an end directive and assembles, and a
    line whose first token is not a label, is neither the origin nor the
    end directive and is a key of none of the three tables (an unknown
    mnemonic, or the [dec] directive).  If no other line is stored in the
    cell of that line, the returned mapping holds the token itself
    there, and [assemble] reports nothing. *)
Theorem unknown_token_is_passed_through
    asm mri rri ioi out i opcode rest loc :
  lowercase (rm_comments asm) →
  has_end (rm_comments asm) →
  assemble_program asm mri rri ioi = Ok out →
  rm_comments asm !! i = Some (opcode :: rest) →
  islabel opcode = false →
  opcode ≠ "org" → opcode ≠ "end" →
  mri !! opcode = None → rri !! opcode = None → ioi !! opcode = None →
  arrival (rm_comments asm) i = Some loc →
  (∀ j, j ≠ i → cell_key (rm_comments asm) j ≠ Some (key_of loc)) →
  out !! key_of loc = Some opcode.
Proof.
  intros Hlow Hend Hout Hi Hlab Horg Hnend Hmri Hrri Hioi Harr Huniq.
  apply String.eqb_neq in Horg, Hnend.
  assert (Py.lower opcode = opcode) as Hlower.
  { apply list_elem_of_lookup_2 in Hi.
    unfold lowercase in Hlow. rewrite Forall_forall in Hlow.
    specialize (Hlow _ Hi). by apply Forall_cons in Hlow as [? _]. }
  assert (stored (opcode :: rest) = true) as Hst
    by (cbn; by rewrite Hlab, Horg, Hnend).
  destruct (final_cell _ _ _ _ _ _ _ _ Hlow Hend Hout Hi Hst Harr Huniq)
    as (la1 & w1 & l1 & w2 & Hl1 & Hl2 & ->).
  unfold first_pass_line in Hl1.
  rewrite Hlab, Horg, Hnend, location_key_ok in Hl1.
  cbn [mbind result_bind] in Hl1. simplify_eq.
  assert (w2 = ∅) as ->.
  { unfold second_pass_line in Hl2.
    rewrite (is_pseudo_lowercase _ Hlower), Hlower, Horg, Hnend, Hmri in Hl2.
    cbn [orb] in Hl2. destruct (String.eqb opcode "dec"); by simplify_eq. }
  rewrite (left_id_L ∅ (∪)), lookup_fmap, lookup_insert_eq. cbn.
  unfold sweep_value. by rewrite Hioi, Hrri.
Qed.

Lemma unknown_token_is_passed_through_witness :
  ({[ "000000000000" := "0111100000000000"; "000000000001" := "dec" ]} : dict)
    !! key_of 1 = Some "dec".
Proof.
  apply (unknown_token_is_passed_through
           [["cla"]; ["dec"; "25"]; ["end"]]
           {[ "lda" := "010" ]} {[ "cla" := "0111100000000000" ]} ∅ _
           1%nat "dec" ["25"] 1).
  - solve_lowercase.
  - solve_has_end.
  - vm_compute. reflexivity.
  - reflexivity.
  - reflexivity.
  - discriminate.
  - discriminate.
  - reflexivity.
  - reflexivity.
  - reflexivity.
  - reflexivity.
  - intros [|[|[|j]]] Hj; try done; vm_compute; discriminate.
Defined.

(** ** The returned mapping is the object's table *)

(** X19: when [assemble] returns a mapping for a program that has an end
    directive, the mapping is the address-symbol table of the object
    itself, to which [__bin] is bound from then on: whatever a later call
    writes into that table is written into the mapping. *)
Theorem returned_mapping_is_the_table (self : Assembler) (out : dict) :
  has_end (rm_comments (asm self)) →
  (assemble self).2 = Ok out →
  address_symbol_table (assemble self).1 = out ∧
  bin_is_table (assemble self).1 = true ∧
  bin (assemble self).1 = out.
Proof.
  intros Hend.
  destruct (decide (asm self = [])) as [Hnil|Hne].
  { rewrite Hnil in Hend. by apply Exists_nil in Hend. }
  rewrite assemble_unfold by done. cbn zeta.
  destruct (first_pass _ _ _) as [[e1 ast1] la1].
  pose proof (second_pass_loop_has_end (mri_table self) la1
                (rm_comments (asm self)) 0
                (sweep (rri_table self) (ioi_table self) ast1) Hend) as Hne2.
  unfold second_pass.
  destruct (second_pass_loop _ _ _ _ _) as [e2 ast2]. cbn in Hne2.
  destruct e1 as [loc1| |x]; [| |done];
    (destruct e2 as [loc2| |x]; [by destruct (Hne2 loc2)| |done]);
    by intros [= <-].
Qed.

Lemma returned_mapping_is_the_table_witness :
  address_symbol_table
    (assemble (new [["cla"]; ["end"]] ∅ {[ "cla" := "0111100000000000" ]} ∅)).1
    = {[ "000000000000" := "0111100000000000" ]} ∧
  bin_is_table
    (assemble (new [["cla"]; ["end"]] ∅ {[ "cla" := "0111100000000000" ]} ∅)).1
    = true ∧
  bin (assemble (new [["cla"]; ["end"]] ∅ {[ "cla" := "0111100000000000" ]} ∅)).1
    = {[ "000000000000" := "0111100000000000" ]}.
Proof.
  apply returned_mapping_is_the_table.
  - solve_has_end.
  - vm_compute. reflexivity.
Defined.


(** ** Labels and directives *)

(** X20: a token that ends with a comma is never taken for a directive,
    in any letter case: Pass One treats a line that starts with it as a
    labeled line, and Pass Two never takes its origin, end or decimal
    branch for it. *)
Theorem label_is_never_a_directive (opcode : string) :
  islabel opcode = true →
  is_pseudo_instruction opcode = false ∧
  islabel (Py.lower opcode) = true ∧
  Py.lower opcode ≠ "org" ∧ Py.lower opcode ≠ "end" ∧ Py.lower opcode ≠ "dec".
Proof.
  intros Hlab. rewrite <- islabel_lower in Hlab.
  split; [apply islabel_not_pseudo; by rewrite <- islabel_lower|].
  split; [done|].
  repeat split; intros Heq; by rewrite Heq in Hlab.
Qed.

Lemma label_is_never_a_directive_witness :
  is_pseudo_instruction "ORG," = false ∧
  islabel (Py.lower "ORG,") = true ∧
  Py.lower "ORG," ≠ "org" ∧ Py.lower "ORG," ≠ "end" ∧ Py.lower "ORG," ≠ "dec".
Proof. apply label_is_never_a_directive. reflexivity. Defined.
